(** * website_scraper.py: a shallow embedding of the crawl engine

    The development follows [src/website_scraper.py]:
    - [PyStr]: the Python string operations the scraper relies on;
    - [normalize_url], [scrape_url] and the nested [scrape_worker] of
      [ScraperApp.scrape], written as state-passing functions over an explicit
      trace of externally visible actions.

    Strings are sequences of code points below 256; Python's unbounded [int]
    is [Z]; a Python [set] of strings is a [gset string]. *)

From Stdlib Require Import ZArith QArith Ascii String DecimalString.
From stdpp Require Import base decidable list gmap strings.

Local Open Scope Z_scope.
Set Warnings "-clear-no-such-hyp".

(** ** Python string operations *)
Module PyStr.

(** [str.startswith(prefix)] *)
Definition startswith (s p : string) : bool := String.prefix p s.

(** [s.startswith((p1, p2, ...))]: true when one of the prefixes fits. *)
Definition startswith_any (s : string) (ps : list string) : bool :=
  existsb (startswith s) ps.

(** [sep.join(parts)] *)
Fixpoint join (sep : string) (parts : list string) : string :=
  match parts with
  | [] => ""
  | [x] => x
  | x :: rest => x +:+ sep +:+ join sep rest
  end.

(** [str.isspace] on one code point below 256: the ASCII table of CPython
    (tab to carriage return, the four separators 28..31, space) and the two
    Latin-1 white space characters (next line, no-break space). *)
Definition isspace (c : ascii) : bool :=
  let n := N_of_ascii c in
  ((9 <=? n) && (n <=? 13) || (28 <=? n) && (n <=? 32)
   || (n =? 133) || (n =? 160))%N.

(** [s.split()] without argument: the maximal runs of characters that are
    not white space.  [cur] is the word being read, reversed. *)
Fixpoint split_go (cur : list ascii) (s : string) : list string :=
  match s with
  | EmptyString =>
      match cur with
      | [] => []
      | _ => [string_of_list_ascii (rev cur)]
      end
  | String c s' =>
      if isspace c then
        match cur with
        | [] => split_go [] s'
        | _ => string_of_list_ascii (rev cur) :: split_go [] s'
        end
      else split_go (c :: cur) s'
  end.

Definition split (s : string) : list string := split_go [] s.

(** [s.split(sep)] for a one-character separator: every field, also the
    empty ones. *)
Fixpoint split_on_go (sep : ascii) (cur : list ascii) (s : string)
  : list string :=
  match s with
  | EmptyString => [string_of_list_ascii (rev cur)]
  | String c s' =>
      if Ascii.eqb c sep
      then string_of_list_ascii (rev cur) :: split_on_go sep [] s'
      else split_on_go sep (c :: cur) s'
  end.

Definition split_on (sep : ascii) (s : string) : list string :=
  split_on_go sep [] s.

(** [s.split(sep, 1)]: cut at the first separator, if there is one. *)
Fixpoint split_once_go (sep : ascii) (cur : list ascii) (s : string)
  : list string :=
  match s with
  | EmptyString => [string_of_list_ascii (rev cur)]
  | String c s' =>
      if Ascii.eqb c sep
      then [string_of_list_ascii (rev cur); s']
      else split_once_go sep (c :: cur) s'
  end.

Definition split_once (sep : ascii) (s : string) : list string :=
  split_once_go sep [] s.

Fixpoint lstrip (s : string) : string :=
  match s with
  | EmptyString => EmptyString
  | String c s' => if isspace c then lstrip s' else s
  end.

Definition rstrip (s : string) : string :=
  String.rev (lstrip (String.rev s)).

(** [s.strip()] *)
Definition strip (s : string) : string := rstrip (lstrip s).

(** [str.lower] on one code point below 256: A..Z and the Latin-1 capitals
    (192..222 without the multiplication sign 215) move up by 32. *)
Definition lower_char (c : ascii) : ascii :=
  let n := N_of_ascii c in
  if ((65 <=? n) && (n <=? 90)
      || (192 <=? n) && (n <=? 222) && negb (n =? 215))%N
  then ascii_of_N (n + 32) else c.

Fixpoint lower (s : string) : string :=
  match s with
  | EmptyString => EmptyString
  | String c s' => String (lower_char c) (lower s')
  end.

(** Truth value of a string: [bool(s)] is [s != ""]. *)
Definition truthy (s : string) : bool :=
  match s with EmptyString => false | _ => true end.

(** [a or b] on strings. *)
Definition or_else (a b : string) : string := if truthy a then a else b.

(** The newline character and the string of [n] newlines. *)
Definition nl : string := String (ascii_of_N 10) EmptyString.

Fixpoint newlines (n : nat) : string :=
  match n with
  | O => EmptyString
  | S n' => String (ascii_of_N 10) (newlines n')
  end.

End PyStr.

(** ** URL normalisation (lines 242-245) *)

Definition normalize_url (url : string) : string :=
  if negb (PyStr.startswith_any url ["http://"; "https://"])
  then "https://" +:+ url
  else url.

(** The scheme test of the specification: the text starts with one of the
    two scheme prefixes. *)
Definition has_scheme (raw : string) : Prop :=
  ∃ rest, raw = "http://" +:+ rest ∨ raw = "https://" +:+ rest.

(** ** Python's [re]

    The scraper hands its pattern to [re.compile] and later calls
    [Pattern.findall] and reads [Pattern.pattern].  A compiled pattern is
    an object of the library: its source text, the number of its capturing
    groups, and what it finds in a string.  [findall] is derived from the
    matches as the library does.  [re.compile] itself is modelled on a
    fragment: literals, [.], the classes [\d], [\w] and [\s], the greedy
    postfix operators, alternation and capturing groups, matched by
    backtracking as [sre] does. *)
Module Re.

Inductive regex : Type :=
| Eps
| Chr (c : ascii)
| AnyChar                      (* [.]: every character but newline *)
| Digit                        (* [\d] *)
| Word                         (* [\w] *)
| Space                        (* [\s] *)
| Seq (r1 r2 : regex)
| Alt (r1 r2 : regex)
| Star (r : regex)
| Plus (r : regex)
| Opt (r : regex)
| Group (i : nat) (r : regex). (* the [i]-th capturing group, from 1 *)

Definition is_digit (c : ascii) : bool :=
  let n := N_of_ascii c in ((48 <=? n) && (n <=? 57))%N.

Definition is_word (c : ascii) : bool :=
  let n := N_of_ascii c in
  ((48 <=? n) && (n <=? 57) || (65 <=? n) && (n <=? 90)
   || (97 <=? n) && (n <=? 122) || (n =? 95)
   || (n =? 170) || (n =? 181) || (n =? 186)
   || (n =? 178) || (n =? 179) || (n =? 185)
   || (188 <=? n) && (n <=? 190)
   || (192 <=? n) && (n <=? 214) || (216 <=? n) && (n <=? 246)
   || (248 <=? n) && (n <=? 255))%N.

(** Captures: the text of each group that took part, latest first. *)
Definition caps : Type := list (nat * list ascii).

Definition one_char (p : ascii → bool) (s : list ascii) (cs : caps)
    (k : list ascii → caps → option (list ascii * caps))
  : option (list ascii * caps) :=
  match s with
  | c :: s' => if p c then k s' cs else None
  | [] => None
  end.

(** [run r s cs k]: match [r] at the front of [s], then go on with the
    continuation [k] on the rest; the first success in the order of
    Python's backtracking wins.  A repeat goes round as long as the round
    before it consumed something: a round that consumes nothing is run,
    its captures are kept, and the rest of the pattern follows it. *)
Fixpoint run (r : regex) (s : list ascii) (cs : caps)
    (k : list ascii → caps → option (list ascii * caps))
  : option (list ascii * caps) :=
  match r with
  | Eps => k s cs
  | Chr c => one_char (Ascii.eqb c) s cs k
  | AnyChar => one_char (λ c, negb (Ascii.eqb c (ascii_of_N 10))) s cs k
  | Digit => one_char is_digit s cs k
  | Word => one_char is_word s cs k
  | Space => one_char PyStr.isspace s cs k
  | Seq r1 r2 => run r1 s cs (λ s1 cs1, run r2 s1 cs1 k)
  | Alt r1 r2 =>
      match run r1 s cs k with
      | Some x => Some x
      | None => run r2 s cs k
      end
  | Opt r1 =>
      match run r1 s cs k with
      | Some x => Some x
      | None => k s cs
      end
  | Star r1 =>
      (fix loop (n : nat) (s : list ascii) (cs : caps) {struct n} :=
         match n with
         | O => k s cs
         | S n' =>
             match run r1 s cs (λ s1 cs1,
                     if (length s1 <? length s)%nat
                     then loop n' s1 cs1 else k s1 cs1) with
             | Some x => Some x
             | None => k s cs
             end
         end) (S (length s)) s cs
  | Plus r1 =>
      run r1 s cs (λ s0 cs0,
        (fix loop (n : nat) (s : list ascii) (cs : caps) {struct n} :=
           match n with
           | O => k s cs
           | S n' =>
               match run r1 s cs (λ s1 cs1,
                       if (length s1 <? length s)%nat
                       then loop n' s1 cs1 else k s1 cs1) with
               | Some x => Some x
               | None => k s cs
               end
           end) (S (length s0)) s0 cs0)
  | Group i r1 =>
      run r1 s cs (λ s1 cs1,
        k s1 ((i, take (length s - length s1) s) :: cs1))
  end.

(** One match attempt at the front of [s].  With [must_advance] an empty
    match is refused, and the matcher backtracks for another one. *)
Definition match_at (r : regex) (s : list ascii) (must_advance : bool)
  : option (nat * caps) :=
  match run r s [] (λ s1 cs1,
          if must_advance && (length s1 =? length s)%nat
          then None else Some (s1, cs1)) with
  | Some (s1, cs1) => Some ((length s - length s1)%nat, cs1)
  | None => None
  end.

(** A match object, as far as [findall] reads it: the text of the whole
    match and of each group, empty for a group that took no part. *)
Record Match : Type := {
  whole : string;
  subgroups : list string
}.

(** [m.group(i)], with the empty string as the default *)
Definition group (m : Match) (i : nat) : string :=
  match i with
  | O => whole m
  | S j => default "" (subgroups m !! j)
  end.

Definition group_text (cs : caps) (i : nat) : string :=
  match list_find (λ p, p.1 = i) cs with
  | Some (_, (_, t)) => string_of_list_ascii t
  | None => ""
  end.

Definition match_of (groups : nat) (s : list ascii) (len : nat) (cs : caps)
  : Match :=
  {| whole := string_of_list_ascii (take len s);
     subgroups := group_text cs <$> seq 1 groups |}.

(** The scan of [finditer] and [findall]: [skip] characters belong to the
    match found before.  At a free position the pattern is tried; after an
    empty match it is tried once more at the same position for a match
    that advances. *)
Fixpoint scan (r : regex) (groups : nat) (s : list ascii) (skip : nat)
  : list Match :=
  match skip with
  | S skip' =>
      match s with
      | [] => []
      | _ :: s' => scan r groups s' skip'
      end
  | O =>
      let next (k : nat) :=
        match s with
        | [] => []
        | _ :: s' => scan r groups s' k
        end in
      match match_at r s false with
      | None => next O
      | Some (S len', cs) => match_of groups s (S len') cs :: next len'
      | Some (O, cs) =>
          match_of groups s O cs ::
          match match_at r s true with
          | Some (S len', cs') => match_of groups s (S len') cs' :: next len'
          | _ => next O
          end
      end
  end.

(** A compiled pattern object: its source text, the number of its
    capturing groups and the matches it finds in a string, from left to
    right. *)
Record Pattern : Type := {
  pattern : string;
  groups : nat;
  finditer : string → list Match
}.

(** What [findall] returns per match: the whole match for a pattern
    without groups, the text of the group for a pattern with one, a tuple
    of the texts of all groups for a pattern with more. *)
Inductive match_item : Type :=
| MStr (s : string)
| MTuple (t : list string).

Definition item_of (groups : nat) (m : Match) : match_item :=
  match groups with
  | O => MStr (whole m)
  | 1%nat => MStr (group m 1)
  | _ => MTuple (group m <$> seq 1 groups)
  end.

Definition findall (p : Pattern) (text : string) : list match_item :=
  item_of (groups p) <$> finditer p text.

(** The pattern object for a parsed pattern. *)
Definition of_syntax (pat : string) (r : regex) (g : nat) : Pattern :=
  {| pattern := pat; groups := g;
     finditer := λ text, scan r g (list_ascii_of_string text) O |}.

(** *** [re.compile] on the fragment *)

Inductive error : Type :=
| NothingToRepeat
| MultipleRepeat
| MissingParen
| UnbalancedParen
| BadEscape.

(** A pattern is parsed, refused as [re.error], or lies outside the
    fragment (classes in brackets, anchors, counted or lazy repeats,
    [(?...)] groups, the other letter escapes): the model is silent there. *)
Inductive outcome (A : Type) : Type :=
| Parsed (a : A)
| Invalid (e : error)
| Outside.
Arguments Parsed {A} a.
Arguments Invalid {A} e.
Arguments Outside {A}.

Definition bind {A B} (x : outcome A) (f : A → outcome B) : outcome B :=
  match x with
  | Parsed a => f a
  | Invalid e => Invalid e
  | Outside => Outside
  end.

Definition seq_of (r1 r2 : regex) : regex :=
  match r2 with
  | Eps => r1
  | _ => Seq r1 r2
  end.

Definition is_alnum_ascii (c : ascii) : bool :=
  let n := N_of_ascii c in
  ((48 <=? n) && (n <=? 57) || (65 <=? n) && (n <=? 90)
   || (97 <=? n) && (n <=? 122))%N.

(** The escape after a backslash. *)
Definition escape (c : ascii) : outcome regex :=
  match c with
  | "d" => Parsed Digit
  | "w" => Parsed Word
  | "s" => Parsed Space
  | "n" => Parsed (Chr (ascii_of_N 10))
  | "t" => Parsed (Chr (ascii_of_N 9))
  | "r" => Parsed (Chr (ascii_of_N 13))
  | "f" => Parsed (Chr (ascii_of_N 12))
  | "v" => Parsed (Chr (ascii_of_N 11))
  | "a" => Parsed (Chr (ascii_of_N 7))
  | _ => if is_alnum_ascii c then Outside else Parsed (Chr c)
  end%char.

(** The greedy postfix operator after an item, if there is one. *)
Definition postfix (r : regex) (s : list ascii)
  : outcome (regex * list ascii) :=
  let after (q : regex) (s' : list ascii) :=
    match s' with
    | "*" :: _ => Invalid MultipleRepeat
    | "?" :: _ | "+" :: _ | "{" :: _ => Outside
    | _ => Parsed (q, s')
    end%char in
  match s with
  | "*" :: s' => after (Star r) s'
  | "+" :: s' => after (Plus r) s'
  | "?" :: s' => after (Opt r) s'
  | "{" :: _ => Outside
  | _ => Parsed (r, s)
  end%char.

(** [parse_sub]: alternatives; [parse_seq]: the items of one alternative;
    [parse_item]: one item.  [g] is the number of groups opened so far. *)
Fixpoint parse_sub (fuel : nat) (s : list ascii) (g : nat) {struct fuel}
  : outcome (regex * list ascii * nat) :=
  match fuel with
  | O => Outside
  | S fuel' =>
      bind (parse_seq fuel' s g) (λ '(r, s1, g1),
        match s1 with
        | "|" :: s2 =>
            bind (parse_sub fuel' s2 g1) (λ '(r2, s3, g2),
              Parsed (Alt r r2, s3, g2))
        | _ => Parsed (r, s1, g1)
        end%char)
  end
with parse_seq (fuel : nat) (s : list ascii) (g : nat) {struct fuel}
  : outcome (regex * list ascii * nat) :=
  match fuel with
  | O => Outside
  | S fuel' =>
      match s with
      | [] => Parsed (Eps, s, g)
      | "|" :: _ | ")" :: _ => Parsed (Eps, s, g)
      | _ =>
          bind (parse_item fuel' s g) (λ '(r, s1, g1),
            bind (postfix r s1) (λ '(q, s2),
              bind (parse_seq fuel' s2 g1) (λ '(rest, s3, g2),
                Parsed (seq_of q rest, s3, g2))))
      end%char
  end
with parse_item (fuel : nat) (s : list ascii) (g : nat) {struct fuel}
  : outcome (regex * list ascii * nat) :=
  match fuel with
  | O => Outside
  | S fuel' =>
      match s with
      | [] => Outside
      | "(" :: "?" :: _ => Outside
      | "(" :: s' =>
          bind (parse_sub fuel' s' (S g)) (λ '(r, s1, g1),
            match s1 with
            | ")" :: s2 => Parsed (Group (S g) r, s2, g1)
            | _ => Invalid MissingParen
            end%char)
      | "\" :: [] => Invalid BadEscape
      | "\" :: c :: s' => bind (escape c) (λ r, Parsed (r, s', g))
      | "." :: s' => Parsed (AnyChar, s', g)
      | "*" :: _ | "+" :: _ | "?" :: _ => Invalid NothingToRepeat
      | "[" :: _ | "{" :: _ | "^" :: _ | "$" :: _ => Outside
      | c :: s' => Parsed (Chr c, s', g)
      end%char
  end.

(** [re.compile(pattern)] *)
Definition compile (pat : string) : outcome Pattern :=
  let s := list_ascii_of_string pat in
  bind (parse_sub (3 * length s + 3) s O) (λ '(r, rest, g),
    match rest with
    | [] => Parsed (of_syntax pat r g)
    | _ => Invalid UnbalancedParen
    end).

End Re.

(** What [re.compile] makes of the empty string. *)
Definition empty_pattern : Re.Pattern := Re.of_syntax "" Re.Eps 0.

(** ** Values, exceptions and scraped records *)

(** The Python values met where the scraper expects a string: an attribute
    of a tag is a string or, for [class] and its like, a list; a [findall]
    item is a string or a tuple; [Tag.get] without default gives [None]. *)
Inductive value : Type :=
| VStr (s : string)
| VList (l : list string)
| VTuple (t : list string)
| VNone.

Definition value_truthy (v : value) : bool :=
  match v with
  | VStr s => PyStr.truthy s
  | VList l | VTuple l => match l with [] => false | _ => true end
  | VNone => false
  end.

Definition type_name (v : value) : string :=
  match v with
  | VStr _ => "str"
  | VList _ => "list"
  | VTuple _ => "tuple"
  | VNone => "NoneType"
  end.

Definition value_of_match (m : Re.match_item) : value :=
  match m with
  | Re.MStr s => VStr s
  | Re.MTuple t => VTuple t
  end.

Definition is_str (m : Re.match_item) : Prop :=
  match m with Re.MStr _ => True | Re.MTuple _ => False end.

Definition is_tuple (m : Re.match_item) : Prop :=
  match m with Re.MStr _ => False | Re.MTuple _ => True end.

(** Everything the scraper raises or sees raised; all of it is caught by
    [except Exception]. *)
Inductive exn : Type :=
| NoElementsFound (selector url : string)
| InvalidContentType (content_type : string)
| NoRegexMatches (pattern url : string)
| NoContentExtracted (content_type url : string)
| JoinTypeError (index : nat) (found : string)
| FeatureNotFound (features : string)
| HTTPError (status : Z) (reason url : string)
| ZeroDivisionError
| LibraryError (msg : string).

Definition str_of_nat (n : nat) : string :=
  NilZero.string_of_uint (Nat.to_uint n).

Definition str_of_Z (z : Z) : string :=
  NilZero.string_of_int (Z.to_int z).

(** [str(e)] *)
Definition exn_str (e : exn) : string :=
  match e with
  | NoElementsFound selector url =>
      "No elements found for selector '" +:+ selector +:+ "' on " +:+ url
  | InvalidContentType content_type =>
      "Invalid content type: " +:+ content_type
  | NoRegexMatches pattern url =>
      "No regex matches found for " +:+ pattern +:+ " on " +:+ url
  | NoContentExtracted content_type url =>
      "No content extracted for " +:+ content_type +:+ " on " +:+ url
  | JoinTypeError index found =>
      "sequence item " +:+ str_of_nat index
      +:+ ": expected str instance, " +:+ found +:+ " found"
  | FeatureNotFound features =>
      "Couldn't find a tree builder with the features you requested: "
      +:+ features +:+ ". Do you need to install a parser library?"
  | HTTPError status reason url =>
      str_of_Z status
      +:+ (if status <? 500 then " Client Error: " else " Server Error: ")
      +:+ reason +:+ " for url: " +:+ url
  | ZeroDivisionError => "division by zero"
  | LibraryError msg => msg
  end.

(** [sep.join(items)]: a [TypeError] at the first item that is no string. *)
Fixpoint join_values_go (index : nat) (items : list value)
  : exn + list string :=
  match items with
  | [] => inr []
  | VStr s :: rest =>
      match join_values_go (S index) rest with
      | inr l => inr (s :: l)
      | inl e => inl e
      end
  | v :: _ => inl (JoinTypeError index (type_name v))
  end.

Definition join_values (sep : string) (items : list value) : exn + string :=
  match join_values_go O items with
  | inr l => inr (PyStr.join sep l)
  | inl e => inl e
  end.

Record ScrapedData : Type := {
  url : string;
  content : string;
  attributes : string
}.

(** ** The outside world *)

(** What the scraper reads of a bs4 [Tag]: [get_text(strip=True)] and the
    attribute dictionary. *)
Record Tag : Type := {
  get_text : string;
  attrs : gmap string value
}.

(** [element.get(key, default)] *)
Definition tag_get (t : Tag) (key : string) (default : value) : value :=
  match attrs t !! key with
  | Some v => v
  | None => default
  end.

(** A [requests.get] call as the scraper parametrises it. *)
Record http_request : Type := {
  req_url : string;
  req_headers : option (gmap string string);
  req_timeout : Q;
  req_proxies : option (gmap string string)
}.

Record response : Type := {
  status_code : Z;
  reason : string;
  response_url : string;
  text : string
}.

Inductive http_outcome : Type :=
| HttpRaised (e : exn)            (* timeout, connection error, ... *)
| HttpResponse (r : response).

(** A headless Chrome session: the driver does not start, [driver.get]
    raises, or the page source is read. *)
Inductive render_outcome : Type :=
| LaunchRaised (e : exn)
| GetRaised (e : exn)
| PageSource (html : string).

(** The externally visible actions, in the order they happen. *)
Inductive event : Type :=
| EvChromeLaunch (options : list string)
| EvDriverGet (url : string)
| EvImplicitlyWait (secs : Q)
| EvDriverQuit
| EvHttpGet (req : http_request)
| EvSleep (secs : Q)
| EvStatus (msg : string)         (* [status_queue.put(msg)] *)
| EvLogError (msg : string).      (* [self.logger.error(msg)] *)

(** A fetch attempt starts with one of these two events. *)
Definition is_fetch (e : event) : bool :=
  match e with
  | EvChromeLaunch _ | EvHttpGet _ => true
  | _ => false
  end.

Definition is_sleep (e : event) : bool :=
  match e with EvSleep _ => true | _ => false end.

Definition is_status (e : event) : bool :=
  match e with EvStatus _ => true | _ => false end.

(** The number of events of a kind in a trace. *)
Definition count (p : event → bool) (evs : list event) : nat :=
  length (List.filter p evs).

(** [response.raise_for_status()] *)
Definition raise_for_status (r : response) : option exn :=
  if (400 <=? status_code r) && (status_code r <? 600)
  then Some (HTTPError (status_code r) (reason r) (response_url r))
  else None.

(** [{"http": proxy, "https": proxy} if proxy else None] *)
Definition proxies_of (proxy : string) : option (gmap string string) :=
  if PyStr.truthy proxy
  then Some (<["http" := proxy]> (<["https" := proxy]> ∅))
  else None.

(** bs4: the feature names under which a tree builder can be registered,
    with every optional parser installed. *)
Definition builder_features : list string :=
  ["html.parser"; "html"; "strict"; "lxml"; "lxml-xml"; "xml"; "fast";
   "permissive"; "html5lib"; "html5"].

Record soup : Type := {
  features : string;
  markup : string
}.

(** [BeautifulSoup(markup, features)]: the registry is asked for a builder
    with the feature; without one the constructor raises. *)
Definition BeautifulSoup (markup features : string) : exn + soup :=
  if bool_decide (features ∈ builder_features)
  then inr {| features := features; markup := markup |}
  else inl (FeatureNotFound features).

Definition bind_exn {A B : Type} (m : exn + A) (k : A → exn + B) : exn + B :=
  match m with
  | inl e => inl e
  | inr a => k a
  end.

Notation "'try' x ← m 'in' k" := (bind_exn m (λ x, k))
  (at level 10, x name, m at level 100, k at level 200,
   format "'[v' 'try'  x  ←  m  'in' '/' k ']'").

(** ** [scrape_url] (lines 247-305) *)

(** The argument tuple of [scrape_url], without the status queue, which is
    the trace. [regex] is [None] for a false value in that position. *)
Record scrape_args : Type := {
  arg_url : string;
  selector : string;
  attribute : string;
  regex : option Re.Pattern;
  use_headless : bool;
  content_type : string;
  timeout : Q;
  proxy : string;
  retry_attempts : Z
}.

(** The arguments [a] with the fetch mode and proxy set. *)
Definition with_mode (headless : bool) (p : string) (a : scrape_args)
  : scrape_args :=
  {| arg_url := arg_url a; selector := selector a; attribute := attribute a;
     regex := regex a; use_headless := headless;
     content_type := content_type a; timeout := timeout a; proxy := p;
     retry_attempts := retry_attempts a |}.

(** Lines 274-275: the text of every element, its white space collapsed. *)
Definition text_content (elements : list Tag) : string :=
  PyStr.join PyStr.nl
    ((λ element, PyStr.join " " (PyStr.split (get_text element)))
       <$> elements).

(** White space collapsed, in the words of the specification: leading and
    trailing white space goes, every other run of white space becomes one
    space. The reader is before the first word, in a word, or in a gap
    after a word. *)
Inductive phase : Type := Leading | InWord | Gap.

Fixpoint collapse_from (ph : phase) (s : string) : string :=
  match s with
  | EmptyString => EmptyString
  | String c s' =>
      if PyStr.isspace c then
        collapse_from (match ph with Leading => Leading | _ => Gap end) s'
      else
        match ph with
        | Gap => String " " (String c (collapse_from InWord s'))
        | _ => String c (collapse_from InWord s')
        end
  end.

Definition collapse_whitespace (s : string) : string :=
  collapse_from Leading s.

(** Lines 276-279: one attribute of every element, [""] where it is absent. *)
Definition attr_content (key : string) (elements : list Tag) : exn + string :=
  join_values PyStr.nl ((λ element, tag_get element key (VStr "")) <$> elements).

(** Lines 283-287 *)
Definition regex_step (regex : option Re.Pattern) (normalized_url : string)
    (content : string) : exn + string :=
  match regex with
  | Some regex =>
      let matches := Re.findall regex content in
      match matches with
      | [] => inl (NoRegexMatches (Re.pattern regex) normalized_url)
      | _ => join_values PyStr.nl (value_of_match <$> matches)
      end
  | None => inr content
  end.

Section World.

(** The world answers the [n]-th network interaction of the run. *)
Variable chrome : nat → list string → string → render_outcome.
Variable http : nat → http_request → http_outcome.
(** [soup.select(selector)] and [urllib.parse.urljoin] *)
Variable select : soup → string → exn + list Tag.
Variable urljoin : string → string → exn + string.

(** Lines 253-267: the page, and what was done to get it. *)
Definition fetch_html (a : scrape_args) (normalized_url : string)
    (clock : nat) : (exn + string) * list event :=
  if use_headless a then
    let chrome_options := ["--headless"] in
    match chrome clock chrome_options normalized_url with
    | LaunchRaised e => (inl e, [EvChromeLaunch chrome_options])
    | GetRaised e =>
        (inl e, [EvChromeLaunch chrome_options; EvDriverGet normalized_url;
                 EvDriverQuit])
    | PageSource html =>
        (inr html,
         [EvChromeLaunch chrome_options; EvDriverGet normalized_url;
          EvImplicitlyWait (timeout a); EvDriverQuit])
    end
  else
    let req := {| req_url := normalized_url; req_headers := None;
                  req_timeout := timeout a;
                  req_proxies := proxies_of (proxy a) |} in
    match http clock req with
    | HttpRaised e => (inl e, [EvHttpGet req])
    | HttpResponse r =>
        match raise_for_status r with
        | Some e => (inl e, [EvHttpGet req])
        | None => (inr (text r), [EvHttpGet req])
        end
    end.

(** Lines 269-297, after the fetch and before the status message. *)
Definition extract (a : scrape_args) (normalized_url html : string)
  : exn + ScrapedData :=
  try soup ← BeautifulSoup html "html.parser" in
  try elements ← select soup (selector a) in
  match elements with
  | [] => inl (NoElementsFound (selector a) normalized_url)
  | _ =>
      let kind := PyStr.lower (content_type a) in
      try content ←
        (if String.eqb kind "text" then inr (text_content elements)
         else if String.eqb kind "links" then attr_content "href" elements
         else if String.eqb kind "images" then attr_content "src" elements
         else inl (InvalidContentType (content_type a))) in
      try content ← regex_step (regex a) normalized_url content in
      try attributes ←
        (if String.eqb kind "text" && PyStr.truthy (attribute a)
         then attr_content (attribute a) elements
         else inr "") in
      if PyStr.truthy content
      then inr {| url := normalized_url; content := content;
                  attributes := attributes |}
      else inl (NoContentExtracted (content_type a) normalized_url)
  end.

(** One pass through the [try] block. *)
Definition attempt (a : scrape_args) (normalized_url : string) (clock : nat)
  : (exn + ScrapedData) * list event :=
  let '(page, evs) := fetch_html a normalized_url clock in
  match page with
  | inl e => (inl e, evs)
  | inr html =>
      match extract a normalized_url html with
      | inl e => (inl e, evs)
      | inr data =>
          (inr data, evs ++ [EvStatus ("Scraped " +:+ normalized_url)])
      end
  end.

(** The trace of [k] failed attempts followed by sleeps, from [clock]. *)
Definition retried (a : scrape_args) (u : string) (clock k : nat)
  : list event :=
  flat_map (λ i, (attempt a u (clock + i)).2 ++ [EvSleep 1]) (seq 0 k).

(** The [while attempts <= retry_attempts] loop.  Every attempt is one
    network interaction; [None] only when the fuel runs out. *)
Fixpoint scrape_loop (fuel : nat) (a : scrape_args) (normalized_url : string)
    (attempts : Z) (clock : nat)
  : option (option ScrapedData * list event * nat) :=
  if attempts <=? retry_attempts a then
    match fuel with
    | O => None
    | S fuel' =>
        match attempt a normalized_url clock with
        | (inr data, evs) => Some (Some data, evs, S clock)
        | (inl e, evs) =>
            let attempts := attempts + 1 in
            if attempts >? retry_attempts a then
              let error_msg :=
                "Error scraping " +:+ normalized_url +:+ ": " +:+ exn_str e in
              Some (None, evs ++ [EvStatus error_msg; EvLogError error_msg],
                    S clock)
            else
              match scrape_loop fuel' a normalized_url attempts (S clock) with
              | Some (result, evs', clock') =>
                  Some (result, evs ++ [EvSleep 1] ++ evs', clock')
              | None => None
              end
        end
    end
  else Some (None, [], clock).

Definition scrape_url (a : scrape_args) (clock : nat)
  : option (option ScrapedData * list event * nat) :=
  let normalized_url := normalize_url (arg_url a) in
  scrape_loop (Z.to_nat (retry_attempts a + 1)) a normalized_url 0 clock.

End World.

(** ** [scrape] and its [scrape_worker] (lines 420-494) *)

(** The local variables of [scrape] that [scrape_worker] closes over. *)
Record crawl_config : Type := {
  urls : list string;
  cfg_selector : string;
  cfg_attribute : string;
  cfg_regex : Re.Pattern;
  next_page_selector : string;
  cfg_content_type : string;
  depth : Z;
  headers : gmap string string;
  cfg_timeout : Q;
  cfg_proxy : string;
  scrape_delay : Q;
  cfg_use_headless : bool;
  cfg_retry_attempts : Z;
  max_concurrent : Z
}.

(** The variables of [scrape_worker], the two shared values it writes, the
    clock and trace of the world, and two ghost logs: the frontier entries
    handed to [scrape_url] and the records it returned. *)
Record crawl_state : Type := {
  all_urls : gset string;
  queue : list (string * Z);
  seen_content : gset string;
  scraped_results : list ScrapedData;
  total_urls : Z;
  progress : Q;
  clock : nat;
  trace : list event;
  dispatched : list (string * Z);
  produced : list ScrapedData
}.

Definition with_queue (q : list (string * Z)) (st : crawl_state) :=
  {| all_urls := all_urls st; queue := q; seen_content := seen_content st;
     scraped_results := scraped_results st; total_urls := total_urls st;
     progress := progress st; clock := clock st; trace := trace st;
     dispatched := dispatched st; produced := produced st |}.

Definition with_all_urls (u : gset string) (st : crawl_state) :=
  {| all_urls := u; queue := queue st; seen_content := seen_content st;
     scraped_results := scraped_results st; total_urls := total_urls st;
     progress := progress st; clock := clock st; trace := trace st;
     dispatched := dispatched st; produced := produced st |}.

Definition with_total_urls (n : Z) (st : crawl_state) :=
  {| all_urls := all_urls st; queue := queue st;
     seen_content := seen_content st;
     scraped_results := scraped_results st; total_urls := n;
     progress := progress st; clock := clock st; trace := trace st;
     dispatched := dispatched st; produced := produced st |}.

Definition with_progress (p : Q) (st : crawl_state) :=
  {| all_urls := all_urls st; queue := queue st;
     seen_content := seen_content st;
     scraped_results := scraped_results st; total_urls := total_urls st;
     progress := p; clock := clock st; trace := trace st;
     dispatched := dispatched st; produced := produced st |}.

(** Events are appended; the clock moves on. *)
Definition emit (evs : list event) (clock' : nat) (st : crawl_state) :=
  {| all_urls := all_urls st; queue := queue st;
     seen_content := seen_content st;
     scraped_results := scraped_results st; total_urls := total_urls st;
     progress := progress st; clock := clock'; trace := trace st ++ evs;
     dispatched := dispatched st; produced := produced st |}.

(** Ghost: the entry goes to [scrape_url]. *)
Definition note_dispatch (entry : string * Z) (st : crawl_state) :=
  {| all_urls := all_urls st; queue := queue st;
     seen_content := seen_content st;
     scraped_results := scraped_results st; total_urls := total_urls st;
     progress := progress st; clock := clock st; trace := trace st;
     dispatched := dispatched st ++ [entry]; produced := produced st |}.

(** Lines 465-468, and the ghost log of what [scrape_url] returned. *)
Definition keep_result (result : option ScrapedData) (st : crawl_state) :=
  match result with
  | Some result =>
      let fresh := bool_decide (content result ∉ seen_content st) in
      {| all_urls := all_urls st; queue := queue st;
         seen_content :=
           if fresh then {[content result]} ∪ seen_content st
           else seen_content st;
         scraped_results :=
           if fresh then scraped_results st ++ [result]
           else scraped_results st;
         total_urls := total_urls st;
         progress := progress st; clock := clock st; trace := trace st;
         dispatched := dispatched st; produced := produced st ++ [result] |}
  | None => st
  end.

Definition has_content (c : string) (r : ScrapedData) : bool :=
  String.eqb (content r) c.

(** The first record with content [c] among those produced, as a list. *)
Definition first_with (c : string) (l : list ScrapedData) : list ScrapedData :=
  match List.find (has_content c) l with
  | Some r => [r]
  | None => []
  end.

(** The three variables kept in step by lines 465-468. *)
Record dedup_inv (seen : gset string) (kept made : list ScrapedData)
  : Prop := {
  seen_all : seen = list_to_set (content <$> made);
  kept_first : ∀ c, List.filter (has_content c) kept = first_with c made
}.

(** Lines 484-487, for one resolved link. *)
Definition enqueue (cfg : crawl_config) (current_depth : Z)
    (absolute_url : string) (st : crawl_state) : crawl_state :=
  if bool_decide (absolute_url ∉ all_urls st) && (current_depth <? depth cfg)
  then
    let st := with_all_urls ({[absolute_url]} ∪ all_urls st) st in
    let st := with_queue (queue st ++ [(absolute_url, current_depth + 1)]) st in
    with_total_urls (Z.min (Z.of_nat (size (all_urls st))) 100) st
  else st.

(** What the worker does at an iteration of its [while queue] loop. *)
Inductive step_result : Type :=
| Finished                        (* the queue is empty *)
| Continue (st : crawl_state)
| Raised (e : exn) (st : crawl_state)  (* an exception leaves the thread *)
| OutOfFuel.

Section Worker.

Variable chrome : nat → list string → string → render_outcome.
Variable http : nat → http_request → http_outcome.
Variable select : soup → string → exn + list Tag.
Variable urljoin : string → string → exn + string.

(** [urljoin(current_url, href)]; [href] is whatever [Tag.get] gave. *)
Definition urljoin_value (current_url : string) (href : value)
  : exn + string :=
  match href with
  | VStr href => urljoin current_url href
  | _ => inl (LibraryError "Cannot mix str and non-str arguments")
  end.

(** Lines 480-487: the [for] loop; an exception ends it and keeps what
    was written before. *)
Fixpoint enqueue_links (cfg : crawl_config) (current_url : string)
    (current_depth : Z) (elements : list Tag) (st : crawl_state)
  : crawl_state * option exn :=
  match elements with
  | [] => (st, None)
  | element :: rest =>
      let href := tag_get element "href" VNone in
      if value_truthy href then
        match urljoin_value current_url href with
        | inr absolute_url =>
            enqueue_links cfg current_url current_depth rest
              (enqueue cfg current_depth absolute_url st)
        | inl e => (st, Some e)
        end
      else enqueue_links cfg current_url current_depth rest st
  end.

(** Lines 475-489 *)
Definition discover_links (cfg : crawl_config) (current_url : string)
    (current_depth : Z) (st : crawl_state) : crawl_state :=
  if PyStr.truthy (next_page_selector cfg) || (current_depth <? depth cfg)
  then
    let failed (e : exn) (st : crawl_state) :=
      emit [EvStatus ("Error crawling links from " +:+ current_url
                      +:+ ": " +:+ exn_str e)] (clock st) st in
    let req := {| req_url := current_url; req_headers := Some (headers cfg);
                  req_timeout := cfg_timeout cfg;
                  req_proxies := proxies_of (cfg_proxy cfg) |} in
    let answer := http (clock st) req in
    let st := emit [EvHttpGet req] (S (clock st)) st in
    match answer with
    | HttpRaised e => failed e st
    | HttpResponse response =>
        match BeautifulSoup (text response) "html_parser" with
        | inl e => failed e st
        | inr soup =>
            let link_selector :=
              PyStr.or_else (next_page_selector cfg) "a" in
            match select soup link_selector with
            | inl e => failed e st
            | inr elements =>
                match enqueue_links cfg current_url current_depth
                        elements st with
                | (st, Some e) => failed e st
                | (st, None) => st
                end
            end
        end
    end
  else st.

(** The argument tuple built at line 463. *)
Definition args_for (cfg : crawl_config) (current_url : string)
  : scrape_args :=
  {| arg_url := current_url; selector := cfg_selector cfg;
     attribute := cfg_attribute cfg; regex := Some (cfg_regex cfg);
     use_headless := cfg_use_headless cfg;
     content_type := cfg_content_type cfg; timeout := cfg_timeout cfg;
     proxy := cfg_proxy cfg; retry_attempts := cfg_retry_attempts cfg |}.

(** Lines 457-489: one iteration.  [pool.apply] blocks until the result is
    there, so the call of [scrape_url] is a plain call. *)
Definition worker_step (cfg : crawl_config) (st : crawl_state)
  : step_result :=
  match queue st with
  | [] => Finished
  | (current_url, current_depth) :: rest =>
      let st := with_queue rest st in
      if (current_depth >? depth cfg)
         || (100 <=? Z.of_nat (size (all_urls st)))
      then Continue st
      else
        let st := with_all_urls ({[current_url]} ∪ all_urls st) st in
        match scrape_url chrome http select
                (args_for cfg current_url) (clock st) with
        | None => OutOfFuel
        | Some (result, evs, clock') =>
            let st := note_dispatch (current_url, current_depth) st in
            let st := emit evs clock' st in
            let st := keep_result result st in
            if total_urls st =? 0 then Raised ZeroDivisionError st
            else
              let st :=
                with_progress
                  (Z.of_nat (length (scraped_results st))
                   # Z.to_pos (total_urls st)) st in
              let st :=
                if negb (Qle_bool (scrape_delay cfg) 0)
                then emit [EvSleep (scrape_delay cfg)] (clock st) st
                else st in
              Continue (discover_links cfg current_url current_depth st)
        end
  end.

(** The state after [n] iterations, as far as the loop goes on. *)
Fixpoint worker_steps (n : nat) (cfg : crawl_config) (st : crawl_state)
  : crawl_state :=
  match n with
  | O => st
  | S n' =>
      match worker_step cfg st with
      | Continue st' => worker_steps n' cfg st'
      | _ => st
      end
  end.

(** The [while queue] loop: drained, left by an exception, or out of
    fuel. *)
Inductive loop_result : Type :=
| Drained (st : crawl_state)
| Left (e : exn) (st : crawl_state)
| Exhausted.

Fixpoint worker_loop (fuel : nat) (cfg : crawl_config) (st : crawl_state)
  : loop_result :=
  match worker_step cfg st with
  | Finished => Drained st
  | Raised e st' => Left e st'
  | OutOfFuel => Exhausted
  | Continue st' =>
      match fuel with
      | O => Exhausted
      | S fuel' => worker_loop fuel' cfg st'
      end
  end.

(** Lines 449-454 *)
Definition initial_state (cfg : crawl_config) (clock0 : nat)
    (trace0 : list event) : crawl_state :=
  let queue := (λ url, (normalize_url url, 0)) <$> urls cfg in
  {| all_urls := ∅; queue := queue; seen_content := ∅;
     scraped_results := [];
     total_urls := Z.min (Z.of_nat (length queue)) 100;
     progress := 0; clock := clock0; trace := trace0;
     dispatched := []; produced := [] |}.

(** The states of a run: from the initial state along [Continue]. *)
Inductive reachable (cfg : crawl_config) : crawl_state → Prop :=
| reach_init clock0 trace0 :
    reachable cfg (initial_state cfg clock0 trace0)
| reach_step st st' :
    reachable cfg st → worker_step cfg st = Continue st' → reachable cfg st'.

(** The outcome of the worker thread: the final [self.results] and state,
    or the exception that ended the thread. *)
Inductive run_result : Type :=
| Completed (results : list ScrapedData) (st : crawl_state)
| Died (e : exn) (st : crawl_state)
| NoFuel.

(** Lines 448-492: [self.results] is empty when the worker starts, so what
    it holds afterwards is [scraped_results]. *)
Definition scrape_worker (fuel : nat) (cfg : crawl_config) (clock0 : nat)
    (trace0 : list event) : run_result :=
  match worker_loop fuel cfg (initial_state cfg clock0 trace0) with
  | Exhausted => NoFuel
  | Left e st => Died e st
  | Drained st =>
      let final :=
        match scraped_results st with
        | [] => "No successful results"
        | _ => "Scraping completed"
        end in
      Completed (scraped_results st) (emit [EvStatus final] (clock st) st)
  end.

End Worker.

(** The widget values [scrape] reads. *)
Record gui_inputs : Type := {
  url_input : string;
  selector_input : string;
  attribute_input : string;
  regex_input : string;
  next_page_selector_input : string;
  content_type_var : string;
  crawl_depth : Z;
  custom_headers : string;
  timeout_secs : Q;
  proxy_input : string;
  scrape_delay_input : Q;
  use_headless_input : bool;
  retry_attempts_input : Z;
  max_concurrent_input : Z
}.

(** Lines 380-386 *)
Definition parse_headers (custom_headers : string) : gmap string string :=
  foldl (λ headers line,
           match PyStr.split_once ":" line with
           | [name; v] => <[PyStr.strip name := PyStr.strip v]> headers
           | _ => headers
           end)
        ∅ (PyStr.split_on (ascii_of_N 10) (PyStr.strip custom_headers)).

(** Line 421 *)
Definition seed_urls (url_input : string) : list string :=
  PyStr.strip <$>
    filter (λ url, PyStr.truthy (PyStr.strip url) = true)
           (PyStr.split_on "," url_input).

(** Lines 429-440: the locals of [scrape], once the pattern is compiled. *)
Definition config_of (ui : gui_inputs) : Re.outcome crawl_config :=
  Re.bind (Re.compile (regex_input ui)) (λ regex,
    Re.Parsed
      {| urls := seed_urls (url_input ui);
         cfg_selector := selector_input ui;
         cfg_attribute := attribute_input ui;
         cfg_regex := regex;
         next_page_selector := next_page_selector_input ui;
         cfg_content_type := content_type_var ui;
         depth := crawl_depth ui;
         headers := parse_headers (custom_headers ui);
         cfg_timeout := timeout_secs ui;
         cfg_proxy := proxy_input ui;
         scrape_delay := scrape_delay_input ui;
         cfg_use_headless := use_headless_input ui;
         cfg_retry_attempts := retry_attempts_input ui;
         max_concurrent := max_concurrent_input ui |}).

Inductive scrape_result : Type :=
| NoValidUrls (evs : list event)
| CompileRaised (e : Re.error)         (* [re.error] leaves [scrape] *)
| OutsideFragment                      (* pattern outside the model *)
| Started (run : run_result).

Section Scrape.

Variable chrome : nat → list string → string → render_outcome.
Variable http : nat → http_request → http_outcome.
Variable select : soup → string → exn + list Tag.
Variable urljoin : string → string → exn + string.

(** Lines 420-494; the worker thread is run to its end. *)
Definition scrape (fuel : nat) (ui : gui_inputs) (clock0 : nat)
  : scrape_result :=
  match seed_urls (url_input ui) with
  | [] => NoValidUrls [EvStatus "No valid URLs provided"]
  | _ =>
      match config_of ui with
      | Re.Invalid e => CompileRaised e
      | Re.Outside => OutsideFragment
      | Re.Parsed cfg =>
          Started (scrape_worker chrome http select urljoin fuel cfg clock0
                     [EvStatus "Scraping..."])
      end
  end.

End Scrape.

(** ** A small world for the examples

    One site: every page is the same document with two paragraphs and a
    link; the selector capability knows the selectors [p], [h1] and [a]. *)
Module Toy.

Definition page : string :=
  "<h1>Title</h1><p>Hello  world</p><p>Bye</p><a href='/b'>b</a>".

Definition tag (t : string) (a : gmap string value) : Tag :=
  {| get_text := t; attrs := a |}.

Definition chrome (n : nat) (options : list string) (u : string)
  : render_outcome := PageSource page.

Definition http (n : nat) (req : http_request) : http_outcome :=
  HttpResponse {| status_code := 200; reason := "OK";
                  response_url := req_url req; text := page |}.

Definition select (s : soup) (sel : string) : exn + list Tag :=
  if String.eqb sel "p" then inr [tag "Hello  world" ∅; tag "Bye" ∅]
  else if String.eqb sel "h1" then inr [tag "Title" ∅]
  else if String.eqb sel "a"
       then inr [tag "b" (<["href" := VStr "/b"]> ∅)]
  else inr [].

(** Enough of [urljoin] for an absolute path on a host. *)
Definition urljoin (base href : string) : exn + string :=
  inr ("https://a.com" +:+ href).

(** A world where nothing can be fetched. *)
Definition chrome_down (n : nat) (options : list string) (u : string)
  : render_outcome := GetRaised (LibraryError "net::ERR_TIMED_OUT").

Definition http_down (n : nat) (req : http_request) : http_outcome :=
  HttpRaised (LibraryError "Read timed out.").

Definition ui : gui_inputs :=
  {| url_input := "a.com"; selector_input := "h1"; attribute_input := "";
     regex_input := ""; next_page_selector_input := "";
     content_type_var := "text"; crawl_depth := 1; custom_headers := "";
     timeout_secs := 10; proxy_input := ""; scrape_delay_input := 0;
     use_headless_input := false; retry_attempts_input := 2;
     max_concurrent_input := 4 |}.

(** The pattern [\w+]. *)
Definition words : Re.Pattern := Re.of_syntax "\w+" (Re.Plus Re.Word) 0.

Definition cfg_of (seeds : list string) : crawl_config :=
  {| urls := seeds; cfg_selector := "h1"; cfg_attribute := "";
     cfg_regex := words; next_page_selector := "";
     cfg_content_type := "text"; depth := 1; headers := ∅;
     cfg_timeout := 10; cfg_proxy := ""; scrape_delay := 0;
     cfg_use_headless := false; cfg_retry_attempts := 2;
     max_concurrent := 4 |}.

(** Two seeds, whose pages have the same heading. *)
Definition cfg : crawl_config := cfg_of ["a.com"; "b.com"].

(** 101 seeds, one more than the cap. *)
Definition cfg_many : crawl_config :=
  cfg_of ((λ i, "a.com/" +:+ str_of_nat i) <$> seq 0 101).

Definition step := worker_step chrome http select urljoin.
Definition steps := worker_steps chrome http select urljoin.

(** After the first seed of [cfg] has been scraped. *)
Definition st1 : crawl_state := steps 1 cfg (initial_state cfg 0 []).

(** After 100 seeds of [cfg_many]: [all_urls] is at the cap. *)
Definition at_cap : crawl_state :=
  steps 100 cfg_many (initial_state cfg_many 0 []).

(** The whole run on [cfg]. *)
Definition outcome : run_result :=
  scrape_worker chrome http select urljoin 2 cfg 0 [].

Definition results : list ScrapedData :=
  match outcome with Completed results _ => results | _ => [] end.

Definition final : crawl_state :=
  match outcome with
  | Completed _ st => st
  | _ => initial_state cfg 0 []
  end.

(** One seed. *)
Definition cfg_one : crawl_config := cfg_of ["a.com"].


(** Arguments for a URL that cannot be fetched, with two retries. *)
Definition args : scrape_args :=
  {| arg_url := "bad.com"; selector := "h1"; attribute := "";
     regex := None; use_headless := false; content_type := "text";
     timeout := 10; proxy := ""; retry_attempts := 2 |}.

(** The whole run on [cfg_one]. *)
Definition outcome_one : run_result :=
  scrape_worker chrome http select urljoin 1 cfg_one 0 [].

Definition final_one : crawl_state :=
  match outcome_one with
  | Completed _ st => st
  | _ => initial_state cfg_one 0 []
  end.

(** What [scrape] leaves in [self.results] for the inputs [ui]. *)
Definition scraped : list ScrapedData :=
  match scrape chrome http select urljoin 1 ui 0 with
  | Started (Completed results _) => results
  | _ => []
  end.

Definition scraped_final : crawl_state :=
  match scrape chrome http select urljoin 1 ui 0 with
  | Started (Completed _ st) => st
  | _ => initial_state cfg_one 0 []
  end.


End Toy.

(** ** Vocabulary of the further properties *)

(** The arguments [a] with another attribute name. *)
Definition with_attribute (x : string) (a : scrape_args) : scrape_args :=
  {| arg_url := arg_url a; selector := selector a; attribute := x;
     regex := regex a; use_headless := use_headless a;
     content_type := content_type a; timeout := timeout a; proxy := proxy a;
     retry_attempts := retry_attempts a |}.

(** The only actions [scrape_url] takes for the arguments [a] on the
    normalized URL [u]: Chrome with [--headless] on [u], a plain GET of [u]
    without headers, a sleep of 1, a status or a log line. *)
Definition allowed (a : scrape_args) (u : string) (ev : event) : Prop :=
  match ev with
  | EvChromeLaunch options => options = ["--headless"]
  | EvDriverGet u' => u' = u
  | EvImplicitlyWait secs => secs = timeout a
  | EvDriverQuit => True
  | EvHttpGet req =>
      req = {| req_url := u; req_headers := None; req_timeout := timeout a;
               req_proxies := proxies_of (proxy a) |}
  | EvSleep secs => secs = 1%Q
  | EvStatus _ | EvLogError _ => True
  end.

(** The characters of a string. *)
Definition chars (s : string) : list ascii := list_ascii_of_string s.

(** No white space at either end. *)
Definition trimmed (s : string) : Prop :=
  PyStr.lstrip s = s ∧ PyStr.rstrip s = s.

(** Nothing but white space. *)
Definition all_space (s : string) : Prop :=
  Forall (λ c, PyStr.isspace c = true) (chars s).

(** ** [load_urls_from_file] (lines 338-352)

    [filename] is what the file dialog returned, empty when it was
    dismissed; [file] is what opening and reading the file gave: an
    exception, or its lines. The result is the content of the URL field
    and the status messages. *)
Definition load_urls_from_file (filename : string) (file : exn + list string)
    (url_input : string) : string * list string :=
  if negb (PyStr.truthy filename) then (url_input, [])
  else
    match file with
    | inl e => (url_input, ["Failed to load URLS: " +:+ exn_str e])
    | inr lines =>
        let urls :=
          PyStr.strip <$>
            filter (λ line, PyStr.truthy (PyStr.strip line) = true) lines in
        match urls with
        | [] => (url_input, ["No valid URLS found in file"])
        | _ =>
            (PyStr.join ", " urls,
             ["Loaded " +:+ str_of_nat (length urls) +:+ " URLS from file"])
        end
    end.

(** What [parse_headers] does with one line (lines 383-385). *)
Definition header_step (headers : gmap string string) (line : string)
  : gmap string string :=
  match PyStr.split_once ":" line with
  | [name; v] => <[PyStr.strip name := PyStr.strip v]> headers
  | _ => headers
  end.

(** A header written the usual way: the name, a colon and a space, the
    value. *)
Definition header_line (h : string * string) : string :=
  h.1 +:+ ": " +:+ h.2.

(** Names and values that can be written on a line: neither has white
    space at its ends or a newline inside; the name is not empty and has
    no colon. *)
Definition header_ok (h : string * string) : Prop :=
  let name := h.1 in
  let v := h.2 in
  name ≠ "" ∧ trimmed name ∧ (":"%char ∉ chars name)
  ∧ (ascii_of_N 10 ∉ chars name)
  ∧ trimmed v ∧ (ascii_of_N 10 ∉ chars v).

(** [needle in hay] on strings. *)
Fixpoint str_contains (needle hay : string) : bool :=
  String.prefix needle hay
  || match hay with
     | EmptyString => false
     | String _ rest => str_contains needle rest
     end.

(** ** The colour of a status (lines 399-404 of [update_status]) *)
Definition status_foreground (dark_mode : bool) (status : string) : string :=
  if str_contains "Error" status then "red"
  else if str_contains "Scraped" status || str_contains "Saved" status
          || str_contains "Loaded" status then "green"
  else if dark_mode then "black" else "black".

(** ** [save_to_csv] and [save_to_json] (lines 307-336)

    [filename] is what the file dialog returned, [write] what opening the
    file and writing the rows gives: nothing, or an exception. The result
    is the list of status messages, or the exception that leaves the
    callback. *)
Definition to_dict (d : ScrapedData) : gmap string string :=
  <["url" := url d]>
    (<["content" := content d]> (<["attributes" := attributes d]> ∅)).

Definition save_to_csv (filename : string) (results : list ScrapedData)
    (write : string → list (gmap string string) → option exn)
  : exn + list string :=
  if negb (PyStr.truthy filename) then inr []
  else
    match results with
    | [] =>
        (* [self.status.queue.put(...)]: there is no [self.status] *)
        inl (LibraryError "'ScraperApp' object has no attribute 'status'")
    | _ =>
        match write filename (to_dict <$> results) with
        | None => inr ["Saved to " +:+ filename]
        | Some e => inr ["Failed to save CSV: " +:+ exn_str e]
        end
    end.

Definition save_to_json (filename : string) (results : list ScrapedData)
    (write : string → list (gmap string string) → option exn)
  : exn + list string :=
  if negb (PyStr.truthy filename) then inr []
  else
    match results with
    | [] => inr ["No data to save"]
    | _ =>
        match write filename (to_dict <$> results) with
        | None => inr ["Saved to " +:+ filename]
        | Some e => inr ["Failed to save JSON: " +:+ exn_str e]
        end
    end.

(** The frontier entries of the seeds, as line 450 builds them. *)
Definition seed_entries (cfg : crawl_config) : list (string * Z) :=
  (λ url, (normalize_url url, 0)) <$> urls cfg.

(** The distinct normalized seed URLs. *)
Definition seed_set (cfg : crawl_config) : gset string :=
  list_to_set (normalize_url <$> urls cfg).

(** A world whose first answer is a timeout and that serves the page of
    [Toy] from then on. *)
Module Flaky.

Definition http (n : nat) (req : http_request) : http_outcome :=
  match n with
  | O => HttpRaised (LibraryError "Read timed out.")
  | S _ => Toy.http n req
  end.

(** Arguments for the heading of the page, with two retries. *)
Definition args : scrape_args :=
  {| arg_url := "a.com"; selector := "h1"; attribute := "";
     regex := None; use_headless := false; content_type := "text";
     timeout := 10; proxy := ""; retry_attempts := 2 |}.

(** The same with a content type the scraper does not know. *)
Definition args_video : scrape_args :=
  {| arg_url := "a.com"; selector := "h1"; attribute := "";
     regex := None; use_headless := false; content_type := "video";
     timeout := 10; proxy := ""; retry_attempts := 2 |}.

(** The links of the page, with the attribute field filled in. *)
Definition args_links : scrape_args :=
  {| arg_url := "a.com"; selector := "a"; attribute := "href";
     regex := None; use_headless := false; content_type := "links";
     timeout := 10; proxy := ""; retry_attempts := 2 |}.

(** No attempt at all. *)
Definition args_none : scrape_args :=
  {| arg_url := "a.com"; selector := "h1"; attribute := "";
     regex := None; use_headless := false; content_type := "text";
     timeout := 10; proxy := ""; retry_attempts := -1 |}.

End Flaky.

(** A crawl whose second seed names the page of the first, and the inputs
    of the file and header examples. *)
Module Sample.

Definition cfg : crawl_config := Toy.cfg_of ["a.com"; "https://a.com"].

Definition outcome : run_result :=
  scrape_worker Toy.chrome Toy.http Toy.select Toy.urljoin 2 cfg 0 [].

Definition results : list ScrapedData :=
  match outcome with Completed results _ => results | _ => [] end.

Definition final : crawl_state :=
  match outcome with
  | Completed _ st => st
  | _ => initial_state cfg 0 []
  end.

(** The lines of a file of URLs, as iterating over the file gives them:
    each with its newline, one of them blank. *)
Definition lines : list string :=
  ["a.com" +:+ PyStr.nl; PyStr.nl; "  b.com/x " +:+ PyStr.nl].





(** Three headers, the first name repeated, one value with a colon. *)
Definition headers : list (string * string) :=
  [("Accept", "text/html"); ("X-Time", "12:30"); ("Accept", "*/*")].

End Sample.

(** * Properties *)

(** ** URL normalisation *)

Lemma prefix_app (p s : string) :
  String.prefix p s = true ↔ ∃ rest, s = p +:+ rest.
Proof.
  revert s. induction p as [|c p IH]; intros s.
  - split; [intros _; by exists s | by destruct s].
  - destruct s as [|d s]; simpl.
    + split; [done | intros [rest Hrest]; discriminate].
    + destruct (ascii_dec c d) as [->|Hne].
      * rewrite IH. split; intros [rest Hrest]; exists rest.
        -- by rewrite Hrest.
        -- by injection Hrest.
      * split; [done | intros [rest Hrest]; injection Hrest; congruence].
Qed.

Lemma startswith_scheme (raw : string) :
  PyStr.startswith_any raw ["http://"; "https://"] = true ↔ has_scheme raw.
Proof.
  unfold PyStr.startswith_any, PyStr.startswith, has_scheme. simpl.
  rewrite orb_false_r, orb_true_iff, !prefix_app. split.
  - intros [[rest ->]|[rest ->]]; exists rest; auto.
  - intros [rest [->| ->]]; [left|right]; by exists rest.
Qed.

(** C8. [normalize_url] is a total function on strings: an input that
    starts with [http://] or [https://] comes back unchanged, every other
    input gets [https://] in front; so [example.com] becomes
    [https://example.com] and [http://x.com] stays. *)
Theorem normalize_url_spec :
  (∀ raw : string,
      (has_scheme raw ∧ normalize_url raw = raw)
      ∨ (¬ has_scheme raw ∧ normalize_url raw = "https://" +:+ raw))
  ∧ normalize_url "example.com" = "https://example.com"
  ∧ normalize_url "http://x.com" = "http://x.com".
Proof.
  split; [|by split].
  intros raw. unfold normalize_url.
  destruct (PyStr.startswith_any raw _) eqn:Hs; simpl.
  - left. split; [by apply startswith_scheme | done].
  - right. split; [|done].
    intros H%startswith_scheme. congruence.
Qed.

(** ** The retry loop of [scrape_url] *)

Lemma count_app p evs1 evs2 :
  count p (evs1 ++ evs2) = (count p evs1 + count p evs2)%nat.
Proof. unfold count. by rewrite List.filter_app, length_app. Qed.

Section Retry.

Variable chrome : nat → list string → string → render_outcome.
Variable http : nat → http_request → http_outcome.
Variable select : soup → string → exn + list Tag.

Local Abbreviation try_once := (attempt chrome http select).
Local Abbreviation loop := (scrape_loop chrome http select).
Local Abbreviation retries := (retried chrome http select).

(** Every fetch starts with one fetch event and neither sleeps nor
    reports. *)
Lemma fetch_html_events a u n :
  let evs := (fetch_html chrome http a u n).2 in
  count is_fetch evs = 1%nat ∧ List.filter is_sleep evs = []
  ∧ List.filter is_status evs = [].
Proof.
  unfold fetch_html. destruct (use_headless a).
  - by destruct (chrome _ _ _).
  - destruct (http _ _) as [e|r]; [done|].
    by destruct (raise_for_status r).
Qed.

Lemma attempt_failed_events a u n e evs :
  try_once a u n = (inl e, evs) →
  count is_fetch evs = 1%nat ∧ List.filter is_sleep evs = []
  ∧ List.filter is_status evs = [].
Proof.
  unfold attempt. intros H.
  pose proof (fetch_html_events a u n) as Hf.
  destruct (fetch_html chrome http a u n) as [page evs0].
  destruct page as [e0|html]; [by inversion H; subst|].
  destruct (extract select a u html); by inversion H; subst.
Qed.

Lemma retried_S a u clock k :
  retries a u clock (S k)
  = (try_once a u clock).2 ++ [EvSleep 1] ++ retries a u (S clock) k.
Proof.
  unfold retried. simpl. rewrite Nat.add_0_r, <- seq_shift, flat_map_concat_map.
  rewrite List.map_map, <- flat_map_concat_map, <- app_assoc. simpl.
  do 2 f_equal. apply flat_map_ext. intros i.
  by rewrite Nat.add_succ_r.
Qed.

Section Failing.

Variable a : scrape_args.
Variable u : string.
Hypothesis always_fails : ∀ n, ∃ e evs, try_once a u n = (inl e, evs).

Lemma retried_counts clock k :
  count is_fetch (retries a u clock k) = k
  ∧ List.filter is_sleep (retries a u clock k) = replicate k (EvSleep 1)
  ∧ List.filter is_status (retries a u clock k) = [].
Proof.
  revert clock. induction k as [|k IH]; intros clock; [done|].
  rewrite retried_S. destruct (always_fails clock) as (e & evs & He).
  destruct (attempt_failed_events _ _ _ _ _ He) as (Hf & Hs & Ht).
  destruct (IH (S clock)) as (IHf & IHs & IHt).
  rewrite He. cbn [snd]. rewrite !count_app, !List.filter_app.
  rewrite Hf, Hs, Ht, IHf, IHs, IHt. done.
Qed.

(** With [m] retries left the loop fails [m + 1] times and gives up. *)
Lemma scrape_loop_failing (m : nat) :
  ∀ fuel attempts clock,
    retry_attempts a - attempts = Z.of_nat m →
    (m < fuel)%nat →
    ∃ e evs,
      try_once a u (clock + m) = (inl e, evs)
      ∧ loop fuel a u attempts clock
        = Some (None,
                retries a u clock m ++ evs
                ++ [EvStatus ("Error scraping " +:+ u +:+ ": " +:+ exn_str e);
                    EvLogError ("Error scraping " +:+ u +:+ ": "
                                +:+ exn_str e)],
                S (clock + m)).
Proof.
  induction m as [|m IH]; intros fuel attempts clock Hm Hfuel.
  - destruct (always_fails clock) as (e & evs & He).
    exists e, evs. rewrite Nat.add_0_r. split; [done|].
    destruct fuel as [|fuel]; [lia|]. simpl.
    rewrite He.
    destruct (Z.leb_spec attempts (retry_attempts a)); [|lia].
    destruct (Z.gtb_spec (attempts + 1) (retry_attempts a)); [|lia].
    done.
  - destruct fuel as [|fuel]; [lia|].
    destruct (IH fuel (attempts + 1) (S clock)) as (e & evs & He & Hloop);
      [lia..|].
    exists e, evs. split; [by rewrite Nat.add_succ_r|].
    destruct (always_fails clock) as (e0 & evs0 & He0).
    simpl. rewrite He0.
    destruct (Z.leb_spec attempts (retry_attempts a)); [|lia].
    destruct (Z.gtb_spec (attempts + 1) (retry_attempts a)); [lia|].
    rewrite Hloop, retried_S, He0. simpl.
    by rewrite <- !app_assoc, Nat.add_succ_r.
Qed.

End Failing.

(** C3. For [retry_attempts = k >= 0] and a URL whose every attempt
    fails, [scrape_url] returns [None] after exactly [k + 1] fetches; the
    trace is [k] times a failed attempt followed by a sleep of 1, then the
    last failed attempt, then the error status (and its log line): [k]
    sleeps, all of length 1, and one status event, the error. *)
Theorem scrape_url_retry_exact (a : scrape_args) (k : Z) (clock : nat) :
  retry_attempts a = k →
  0 ≤ k →
  (∀ n, ∃ e evs, try_once a (normalize_url (arg_url a)) n = (inl e, evs)) →
  let u := normalize_url (arg_url a) in
  ∃ e last evs,
    try_once a u (clock + Z.to_nat k) = (inl e, last)
    ∧ scrape_url chrome http select a clock = Some (None, evs, S (clock + Z.to_nat k))
    ∧ evs = retries a u clock (Z.to_nat k) ++ last
            ++ [EvStatus ("Error scraping " +:+ u +:+ ": " +:+ exn_str e);
                EvLogError ("Error scraping " +:+ u +:+ ": " +:+ exn_str e)]
    ∧ Z.of_nat (count is_fetch evs) = k + 1
    ∧ List.filter is_sleep evs = replicate (Z.to_nat k) (EvSleep 1)
    ∧ List.filter is_status evs
      = [EvStatus ("Error scraping " +:+ u +:+ ": " +:+ exn_str e)].
Proof.
  intros Hk Hpos Hfail u.
  destruct (scrape_loop_failing a u Hfail (Z.to_nat k)
              (Z.to_nat (retry_attempts a + 1)) 0 clock)
    as (e & last & He & Hloop); [lia..|].
  exists e, last. eexists. split; [exact He|].
  split; [exact Hloop|]. split; [done|].
  destruct (retried_counts a u Hfail clock (Z.to_nat k)) as (Hf & Hs & Ht).
  destruct (attempt_failed_events _ _ _ _ _ He) as (Hf' & Hs' & Ht').
  rewrite !count_app, !List.filter_app, Hf, Hs, Ht, Hf', Hs', Ht'. simpl.
  rewrite app_nil_r. split; [|done].
  unfold count. simpl. lia.
Qed.

End Retry.

(** [scrape_url] always returns: the fuel it is run with is enough. *)
Lemma scrape_loop_total chrome http select a u :
  ∀ fuel attempts clock,
    (Z.to_nat (retry_attempts a - attempts + 1) ≤ fuel)%nat →
    is_Some (scrape_loop chrome http select fuel a u attempts clock).
Proof.
  induction fuel as [|fuel IH]; intros attempts clock Hfuel; simpl.
  - destruct (Z.leb_spec attempts (retry_attempts a)); [lia | by eexists].
  - destruct (Z.leb_spec attempts (retry_attempts a)); [|by eexists].
    destruct (attempt _ _ _ _ _ _) as [[e|data] evs]; [|by eexists].
    destruct (Z.gtb_spec (attempts + 1) (retry_attempts a)); [by eexists|].
    destruct (IH (attempts + 1) (S clock)) as [[[r evs'] c'] ->]; [lia|].
    by eexists.
Qed.

Lemma scrape_url_total chrome http select a clock :
  is_Some (scrape_url chrome http select a clock).
Proof. apply scrape_loop_total. lia. Qed.

(** ** The frontier *)

(** bs4 has no tree builder called [html_parser]. *)
Lemma html_parser_unknown (markup : string) :
  BeautifulSoup markup "html_parser" = inl (FeatureNotFound "html_parser").
Proof. reflexivity. Qed.

Lemma html_parser_known (markup : string) :
  BeautifulSoup markup "html.parser"
  = inr {| features := "html.parser"; markup := markup |}.
Proof. reflexivity. Qed.

Section Frontier.

Variable chrome : nat → list string → string → render_outcome.
Variable http : nat → http_request → http_outcome.
Variable select : soup → string → exn + list Tag.
Variable urljoin : string → string → exn + string.

Local Abbreviation discover := (discover_links http select urljoin).
Local Abbreviation step := (worker_step chrome http select urljoin).
Local Abbreviation run := (worker_loop chrome http select urljoin).
Local Abbreviation reach := (reachable chrome http select urljoin).

(** Link discovery, as written, changes the clock and the trace only. *)
Lemma discover_links_keeps cfg current_url current_depth st :
  let st' := discover cfg current_url current_depth st in
  all_urls st' = all_urls st ∧ queue st' = queue st
  ∧ seen_content st' = seen_content st
  ∧ scraped_results st' = scraped_results st
  ∧ total_urls st' = total_urls st ∧ progress st' = progress st
  ∧ dispatched st' = dispatched st ∧ produced st' = produced st.
Proof.
  unfold discover_links.
  destruct (_ || _); [|done].
  destruct (http _ _) as [e|r]; [done|].
  by rewrite html_parser_unknown.
Qed.

(** What one iteration that goes on has done. *)
Lemma step_continue cfg st st' :
  step cfg st = Continue st' →
  ∃ current_url current_depth rest,
    queue st = (current_url, current_depth) :: rest
    ∧ queue st' = rest
    ∧ ((st' = with_queue rest st
        ∧ (depth cfg < current_depth
           ∨ (100 ≤ size (all_urls st))%nat))
       ∨ (current_depth ≤ depth cfg
          ∧ (size (all_urls st) < 100)%nat
          ∧ all_urls st' = {[current_url]} ∪ all_urls st
          ∧ dispatched st'
            = dispatched st ++ [(current_url, current_depth)]
          ∧ total_urls st' = total_urls st
          ∧ ∃ result evs clock',
              scrape_url chrome http select (args_for cfg current_url)
                (clock st) = Some (result, evs, clock')
              ∧ seen_content st' = seen_content (keep_result result st)
              ∧ scraped_results st'
                = scraped_results (keep_result result st)
              ∧ produced st' = produced (keep_result result st))).
Proof.
  unfold worker_step. intros H.
  destruct (queue st) as [|[current_url current_depth] rest] eqn:Hq; [done|].
  exists current_url, current_depth, rest. split; [done|].
  destruct (Z.gtb_spec current_depth (depth cfg)) as [Hd|Hd]; simpl in H.
  { inversion H; subst. split; [done|]. left. split; [done|]. by left. }
  destruct (Z.leb_spec 100 (Z.of_nat (size (all_urls st)))) as [Hs|Hs].
  { inversion H; subst. split; [done|]. left. split; [done|]. right. lia. }
  destruct (scrape_url _ _ _ _ _) as [[[result evs] clock']|] eqn:Hscrape;
    [|done].
  destruct (total_urls _ =? 0); [done|].
  inversion H as [Hst']; clear H.
  match goal with
  | |- context [discover ?c ?u ?d ?s] =>
      destruct (discover_links_keeps c u d s)
        as (Ha & Hqu & Hse & Hsc & Hto & Hpr & Hdi & Hpd)
  end.
  rewrite Ha, Hqu, Hse, Hsc, Hto, Hdi, Hpd.
  split; [by destruct (negb _), result|].
  right. split; [lia|]. split; [lia|].
  split; [by destruct (negb _), result|].
  split; [by destruct (negb _), result|].
  split; [by destruct (negb _), result|].
  exists result, evs, clock'. split; [done|].
  by destruct (negb _), result.
Qed.

(** C1. After the fetch-and-extract step the worker does fetch the page
    again when [next_page_selector] is set or [current_depth < depth],
    but it then asks bs4 for the parser [html_parser], which does not
    exist: whatever the world answers, the attempt ends in the
    [except] branch with an error status, and neither the queue nor
    [all_urls] changes. No link is ever enqueued. *)
Theorem link_discovery_never_enqueues cfg current_url current_depth st :
  let st' := discover cfg current_url current_depth st in
  let req := {| req_url := current_url; req_headers := Some (headers cfg);
                req_timeout := cfg_timeout cfg;
                req_proxies := proxies_of (cfg_proxy cfg) |} in
  queue st' = queue st
  ∧ all_urls st' = all_urls st
  ∧ trace st'
    = trace st
      ++ (if PyStr.truthy (next_page_selector cfg)
             || (current_depth <? depth cfg)
          then [EvHttpGet req;
                EvStatus
                  ("Error crawling links from " +:+ current_url +:+ ": "
                   +:+ exn_str
                         match http (clock st) req with
                         | HttpRaised e => e
                         | HttpResponse _ => FeatureNotFound "html_parser"
                         end)]
          else []).
Proof.
  destruct (discover_links_keeps cfg current_url current_depth st)
    as (Ha & Hq & _).
  simpl. split; [done|]. split; [done|].
  unfold discover_links.
  destruct (_ || _); [|by rewrite app_nil_r].
  destruct (http _ _) as [e|r].
  - simpl. by rewrite <- app_assoc.
  - rewrite html_parser_unknown. simpl. by rewrite <- app_assoc.
Qed.

(** So the frontier of a run only ever holds what is left of the seeds. *)
Lemma frontier_is_seeds cfg st :
  reach cfg st →
  ∃ n, queue st = drop n ((λ url, (normalize_url url, 0)) <$> urls cfg).
Proof.
  induction 1 as [clock0 trace0|st st' _ [n IH] Hstep].
  - by exists O.
  - apply step_continue in Hstep
      as (u & d & rest & Hq & Hq' & _).
    exists (S n). rewrite Hq'.
    replace (S n) with (n + 1)%nat by lia.
    by rewrite <- drop_drop, <- IH, Hq.
Qed.

(** *** Depth *)

Lemma enqueue_queue cfg current_depth absolute_url st e :
  e ∈ queue (enqueue cfg current_depth absolute_url st) →
  e ∈ queue st
  ∨ (e = (absolute_url, current_depth + 1) ∧ current_depth < depth cfg).
Proof.
  unfold enqueue.
  destruct (bool_decide _); simpl; [|by left].
  destruct (Z.ltb_spec current_depth (depth cfg)); simpl; [|by left].
  rewrite elem_of_app, list_elem_of_singleton. intros [?|?]; auto.
Qed.

Lemma enqueue_links_depth cfg current_url current_depth elements :
  ∀ st st' err,
    enqueue_links urljoin cfg current_url current_depth elements st
    = (st', err) →
    ∀ e, e ∈ queue st' → e ∈ queue st ∨ e.2 ≤ depth cfg.
Proof.
  induction elements as [|element rest IH]; intros st st' err H e He;
    simpl in H.
  - inversion H; subst. by left.
  - destruct (value_truthy _); [|by eapply IH].
    destruct (urljoin_value _ _ _) as [ex|absolute_url].
    + inversion H; subst. by left.
    + destruct (IH _ _ _ H e He) as [Hin|Hle]; [|by right].
      apply enqueue_queue in Hin as [Hin|[-> Hlt]]; [by left|].
      right. simpl. lia.
Qed.

Lemma dispatched_depth cfg st :
  reach cfg st → Forall (λ e, e.2 ≤ depth cfg) (dispatched st).
Proof.
  induction 1 as [clock0 trace0|st st' _ IH Hstep]; [by constructor|].
  apply step_continue in Hstep
    as (u & d & rest & Hq & Hq' & [[-> _]|(Hd & _ & _ & Hdis & _)]);
    [done|].
  rewrite Hdis. apply Forall_app. split; [done|].
  by repeat constructor.
Qed.

Lemma step_drops_deep cfg st current_url current_depth rest :
  queue st = (current_url, current_depth) :: rest →
  depth cfg < current_depth →
  step cfg st = Continue (with_queue rest st).
Proof.
  intros Hq Hd. unfold worker_step. rewrite Hq.
  by destruct (Z.gtb_spec current_depth (depth cfg)); [|lia].
Qed.

(** C4. In every state of a crawl with depth [d], each entry that was
    handed to [scrape_url] has depth at most [d]; an entry with a larger
    depth at the head of the queue is popped and dropped, with nothing
    dispatched and nothing emitted; and whatever the enqueue loop adds
    to the queue has depth at most [d]. *)
Theorem depth_bound cfg st :
  reach cfg st →
  Forall (λ e, e.2 ≤ depth cfg) (dispatched st)
  ∧ (∀ current_url current_depth rest,
       queue st = (current_url, current_depth) :: rest →
       depth cfg < current_depth →
       ∃ st', step cfg st = Continue st'
              ∧ queue st' = rest ∧ dispatched st' = dispatched st
              ∧ trace st' = trace st ∧ all_urls st' = all_urls st)
  ∧ (∀ current_url current_depth elements st0 st1 err,
       enqueue_links urljoin cfg current_url current_depth elements st0
       = (st1, err) →
       ∀ e, e ∈ queue st1 → e ∈ queue st0 ∨ e.2 ≤ depth cfg).
Proof.
  intros Hreach. split; [by apply dispatched_depth|]. split.
  - intros u d rest Hq Hd. exists (with_queue rest st).
    by rewrite (step_drops_deep _ _ _ _ _ Hq Hd).
  - intros u d elements st0 st1 err. apply enqueue_links_depth.
Qed.

(** *** The cap of 100 *)

Lemma total_urls_capped cfg st : reach cfg st → total_urls st ≤ 100.
Proof.
  induction 1 as [clock0 trace0|st st' _ IH Hstep]; [simpl; lia|].
  apply step_continue in Hstep
    as (u & d & rest & _ & _ & [[-> _]|(_ & _ & _ & _ & -> & _)]); done.
Qed.

Lemma step_drops_at_cap cfg st current_url current_depth rest :
  queue st = (current_url, current_depth) :: rest →
  (100 ≤ size (all_urls st))%nat →
  step cfg st = Continue (with_queue rest st).
Proof.
  intros Hq Hs. unfold worker_step. rewrite Hq. simpl.
  destruct (Z.leb_spec 100 (Z.of_nat (size (all_urls st)))); [|lia].
  by rewrite orb_true_r.
Qed.

(** Lines 484-487 taken alone: a URL that is not in [all_urls] is added
    and queued under [current_depth < depth]; the size of [all_urls] is
    not looked at. *)
Lemma enqueue_fresh cfg current_depth absolute_url st :
  absolute_url ∉ all_urls st →
  current_depth < depth cfg →
  all_urls (enqueue cfg current_depth absolute_url st)
  = {[absolute_url]} ∪ all_urls st
  ∧ queue (enqueue cfg current_depth absolute_url st)
    = queue st ++ [(absolute_url, current_depth + 1)]
  ∧ total_urls (enqueue cfg current_depth absolute_url st)
    = Z.min (Z.of_nat (S (size (all_urls st)))) 100.
Proof.
  intros Hnew Hd. unfold enqueue.
  rewrite bool_decide_eq_true_2 by done.
  destruct (Z.ltb_spec current_depth (depth cfg)); [|lia]. simpl.
  split; [done|]. split; [done|].
  rewrite size_union by set_solver. by rewrite size_singleton.
Qed.

(** The enqueue of lines 484-487 has no test of the cap of its own; it is
    never reached, and so [all_urls] grows at the dequeue only, where the
    cap is tested before a URL is added. *)
Lemma all_urls_bounded_as_written cfg st :
  reach cfg st → (size (all_urls st) ≤ 100)%nat.
Proof.
  induction 1 as [clock0 trace0|st st' _ IH Hstep].
  - unfold initial_state. cbn [all_urls]. rewrite size_empty. lia.
  - apply step_continue in Hstep
      as (u & d & rest & _ & _ & [[-> _]|(_ & Hs & -> & _)]); [done|].
    pose proof (size_union_alt {[u]} (all_urls st)) as Hsz.
    assert (size (all_urls st ∖ {[u]}) ≤ size (all_urls st))%nat
      by (by apply subseteq_size, subseteq_difference_l).
    rewrite Hsz, size_singleton. lia.
Qed.

(** C2. In every state of every crawl [all_urls] holds at most 100 URLs,
    and so does the reported [total_urls], whatever the pages link to.
    Link discovery, as the worker runs it, adds no URL to [all_urls] and
    none to the queue, in any state and so also once 100 are reached; an
    iteration only takes the head off the queue; and once [all_urls]
    holds 100 URLs the entry taken is dropped: it is neither added to
    [all_urls] nor dispatched, and nothing is fetched. *)
Theorem all_urls_within_cap cfg st :
  reach cfg st →
  (size (all_urls st) ≤ 100)%nat
  ∧ total_urls st ≤ 100
  ∧ (∀ current_url current_depth s,
       all_urls (discover cfg current_url current_depth s) = all_urls s
       ∧ queue (discover cfg current_url current_depth s) = queue s)
  ∧ (∀ st', step cfg st = Continue st' →
            (size (all_urls st') ≤ 100)%nat
            ∧ ∃ entry, queue st = entry :: queue st')
  ∧ (∀ current_url current_depth rest,
       queue st = (current_url, current_depth) :: rest →
       (100 ≤ size (all_urls st))%nat →
       ∃ st', step cfg st = Continue st'
              ∧ queue st' = rest ∧ all_urls st' = all_urls st
              ∧ dispatched st' = dispatched st ∧ trace st' = trace st).
Proof.
  intros Hreach.
  split; [by apply (all_urls_bounded_as_written cfg)|].
  split; [by apply (total_urls_capped cfg)|].
  split; [|split].
  - intros u d s.
    by destruct (discover_links_keeps cfg u d s) as (Ha & Hq & _).
  - intros st' Hstep. split.
    + apply (all_urls_bounded_as_written cfg). by eapply reach_step.
    + apply step_continue in Hstep as (u & d & rest & Hq & Hq' & _).
      exists (u, d). by rewrite Hq, Hq'.
  - intros u d rest Hq Hs. exists (with_queue rest st).
    by rewrite (step_drops_at_cap _ _ _ _ _ Hq Hs).
Qed.

(** *** Termination *)

Lemma step_has_fuel cfg st : step cfg st ≠ OutOfFuel.
Proof.
  unfold worker_step.
  destruct (queue st) as [|[u d] rest]; [done|].
  destruct (_ || _); [done|].
  destruct (scrape_url_total chrome http select (args_for cfg u)
              (clock (with_all_urls ({[u]} ∪ all_urls (with_queue rest st))
                        (with_queue rest st))))
    as [[[result evs] clock'] ->].
  by destruct (total_urls _ =? 0).
Qed.

Lemma run_terminates cfg :
  ∀ fuel st, (length (queue st) ≤ fuel)%nat → run fuel cfg st ≠ Exhausted.
Proof.
  induction fuel as [|fuel IH]; intros st Hfuel; simpl.
  - destruct (queue st) as [|entry rest] eqn:Hq; [|simpl in Hfuel; lia].
    unfold worker_step. by rewrite Hq.
  - destruct (step cfg st) as [|st'|e st'|] eqn:Hstep; try done.
    + apply IH. apply step_continue in Hstep
        as (u & d & rest & Hq & -> & _).
      rewrite Hq in Hfuel. simpl in Hfuel. lia.
    + by destruct (step_has_fuel cfg st).
Qed.

Lemma run_reachable cfg :
  ∀ fuel st st', reach cfg st → run fuel cfg st = Drained st' →
                 reach cfg st' ∧ queue st' = [].
Proof.
  induction fuel as [|fuel IH]; intros st st' Hreach; simpl;
    destruct (step cfg st) as [|st1|e st1|] eqn:Hstep; try done.
  - intros [= <-]. split; [done|].
    unfold worker_step in Hstep.
    destruct (queue st) as [|[u d] rest]; [done|].
    destruct (_ || _); [done|].
    destruct (scrape_url _ _ _ _ _) as [[[? ?] ?]|]; [|done].
    by destruct (total_urls _ =? 0).
  - intros [= <-]. split; [done|].
    unfold worker_step in Hstep.
    destruct (queue st) as [|[u d] rest]; [done|].
    destruct (_ || _); [done|].
    destruct (scrape_url _ _ _ _ _) as [[[? ?] ?]|]; [|done].
    by destruct (total_urls _ =? 0).
  - apply IH. by eapply reach_step.
Qed.

(** With at least one seed the division at line 470 never fails, and the
    worker completes within as many iterations as there are seeds. *)
Lemma total_urls_positive cfg st :
  urls cfg ≠ [] → reach cfg st → 1 ≤ total_urls st.
Proof.
  intros Hurls. induction 1 as [clock0 trace0|st st' _ IH Hstep].
  - unfold initial_state. cbn [total_urls]. rewrite length_fmap.
    destruct (urls cfg); [done|]. simpl length. lia.
  - apply step_continue in Hstep
      as (u & d & rest & _ & _ & [[-> _]|(_ & _ & _ & _ & -> & _)]); done.
Qed.

Lemma step_never_raises cfg st e st' :
  urls cfg ≠ [] → reach cfg st → step cfg st ≠ Raised e st'.
Proof.
  intros Hurls Hreach. pose proof (total_urls_positive _ _ Hurls Hreach) as Hpos.
  unfold worker_step.
  destruct (queue st) as [|[u d] rest]; [done|].
  destruct (_ || _); [done|].
  destruct (scrape_url _ _ _ _ _) as [[[result evs] clock']|]; [|done].
  destruct (total_urls _ =? 0) eqn:Hzero; [|done].
  apply Z.eqb_eq in Hzero. destruct result; simpl in Hzero; lia.
Qed.

Lemma run_drains cfg :
  urls cfg ≠ [] →
  ∀ fuel st, reach cfg st → (length (queue st) ≤ fuel)%nat →
             ∃ st', run fuel cfg st = Drained st'.
Proof.
  intros Hurls. induction fuel as [|fuel IH]; intros st Hreach Hfuel; simpl.
  - destruct (queue st) as [|entry rest] eqn:Hq; [|simpl in Hfuel; lia].
    unfold worker_step. rewrite Hq. by eexists.
  - destruct (step cfg st) as [|st1|e st1|] eqn:Hstep.
    + by eexists.
    + apply IH; [by eapply reach_step|].
      apply step_continue in Hstep as (u & d & rest & Hq & -> & _).
      rewrite Hq in Hfuel. simpl in Hfuel. lia.
    + by destruct (step_never_raises cfg st e st1).
    + by destruct (step_has_fuel cfg st).
Qed.

Lemma scrape_worker_completes cfg clock0 trace0 :
  urls cfg ≠ [] →
  ∃ results st,
    scrape_worker chrome http select urljoin (length (urls cfg)) cfg clock0
      trace0 = Completed results st.
Proof.
  intros Hurls. unfold scrape_worker.
  destruct (run_drains cfg Hurls (length (urls cfg))
              (initial_state cfg clock0 trace0)) as [st ->].
  - constructor.
  - unfold initial_state. cbn [queue]. by rewrite length_fmap.
  - by eexists _, _.
Qed.

Lemma steps_reachable cfg :
  ∀ n st, reach cfg st → reach cfg (worker_steps chrome http select urljoin n cfg st).
Proof.
  induction n as [|n IH]; intros st Hreach; simpl; [done|].
  destruct (step cfg st) as [|st'|e st'|] eqn:Hstep; try done.
  apply IH. by eapply reach_step.
Defined.

End Frontier.

(** ** Deduplication by content *)

Lemma find_app {A : Type} (p : A → bool) (l1 l2 : list A) :
  List.find p (l1 ++ l2)
  = match List.find p l1 with
    | Some y => Some y
    | None => List.find p l2
    end.
Proof.
  induction l1 as [|a l1 IH]; simpl; [done|].
  by destruct (p a).
Qed.

Lemma find_snoc {A : Type} (p : A → bool) (l : list A) (x : A) :
  List.find p (l ++ [x])
  = match List.find p l with
    | Some y => Some y
    | None => if p x then Some x else None
    end.
Proof.
  induction l as [|a l IH]; simpl; [done|].
  by destruct (p a).
Qed.

Lemma find_content_none (c : string) (l : list ScrapedData) :
  List.find (has_content c) l = None
  ↔ c ∉ (list_to_set (content <$> l) : gset string).
Proof.
  induction l as [|a l IH]; simpl.
  - split; [set_solver | done].
  - unfold has_content at 1. destruct (String.eqb_spec (content a) c).
    + split; [done | set_solver].
    + rewrite IH. set_solver.
Qed.

Lemma keep_result_dedup result st :
  dedup_inv (seen_content st) (scraped_results st) (produced st) →
  dedup_inv (seen_content (keep_result result st))
    (scraped_results (keep_result result st))
    (produced (keep_result result st)).
Proof.
  destruct result as [r|]; [|done]. simpl. intros [Hseen Hkept].
  case_bool_decide as Hnew.
  - split.
    + rewrite fmap_app, list_to_set_app_L, <- Hseen. simpl. set_solver.
    + intros c. unfold first_with.
      rewrite List.filter_app, find_snoc, Hkept. unfold first_with. simpl.
      destruct (List.find (has_content c) (produced st)) as [y|] eqn:Hf.
      * apply List.find_some in Hf as [Hin Hc].
        unfold has_content in *. apply String.eqb_eq in Hc.
        destruct (String.eqb_spec (content r) c) as [Hrc|]; [|done].
        exfalso. apply Hnew. rewrite Hseen, elem_of_list_to_set.
        apply list_elem_of_fmap. exists y. split; [congruence|].
        by apply list_elem_of_In.
      * by destruct (has_content c r).
  - split.
    + rewrite fmap_app, list_to_set_app_L, <- Hseen. simpl. set_solver.
    + intros c. unfold first_with. rewrite find_snoc, Hkept.
      unfold first_with.
      destruct (List.find (has_content c) (produced st)) as [y|] eqn:Hf;
        [done|].
      apply find_content_none in Hf. rewrite <- Hseen in Hf.
      unfold has_content.
      destruct (String.eqb_spec (content r) c); [congruence|done].
Qed.

Section Dedup.

Variable chrome : nat → list string → string → render_outcome.
Variable http : nat → http_request → http_outcome.
Variable select : soup → string → exn + list Tag.
Variable urljoin : string → string → exn + string.

Local Abbreviation reach := (reachable chrome http select urljoin).

Lemma reachable_dedup cfg st :
  reach cfg st →
  dedup_inv (seen_content st) (scraped_results st) (produced st).
Proof.
  induction 1 as [clock0 trace0|st st' _ IH Hstep].
  - split; [done|]. intros c. done.
  - apply step_continue in Hstep
      as (u & d & rest & _ & _ &
          [[-> _]|(_ & _ & _ & _ & _ & result & evs & clock' & _
                   & -> & -> & ->)]);
      [done|].
    by apply keep_result_dedup.
Qed.

(** C5. When the worker completes, [self.results] holds, for every
    content string, exactly the first record produced with that content
    and no other: of two records with the same content, returned for two
    URLs, only the earlier one is in the results. Dropping the later one
    appends nothing to the results and emits nothing: the trace and the
    counters stay as they are. *)
Theorem dedup_first_wins fuel cfg clock0 trace0 results st :
  scrape_worker chrome http select urljoin fuel cfg clock0 trace0
  = Completed results st →
  (∀ c, List.filter (has_content c) results = first_with c (produced st))
  ∧ (∀ i j r1 r2,
       produced st !! i = Some r1 → produced st !! j = Some r2 →
       (i < j)%nat → content r1 = content r2 →
       ∃ r, List.filter (has_content (content r1)) results = [r]
            ∧ r ∈ take j (produced st))
  ∧ (∀ result st0,
       content result ∈ seen_content st0 →
       scraped_results (keep_result (Some result) st0) = scraped_results st0
       ∧ trace (keep_result (Some result) st0) = trace st0
       ∧ total_urls (keep_result (Some result) st0) = total_urls st0).
Proof.
  unfold scrape_worker. intros H.
  destruct (worker_loop _ _ _ _ _ _ _) as [st1|e st1|] eqn:Hrun; [|done..].
  inversion H; subst results st; clear H.
  apply run_reachable in Hrun as [Hreach _]; [|constructor].
  apply reachable_dedup in Hreach as [_ Hkept].
  split; [exact Hkept|]. split.
  - intros i j r1 r2 Hi Hj Hij Hc. simpl. rewrite Hkept.
    unfold first_with.
    destruct (List.find (has_content (content r1)) (produced st1))
      as [r|] eqn:Hf.
    + exists r. split; [done|].
      rewrite <- (take_drop j (produced st1)) in Hf.
      rewrite find_app in Hf.
      destruct (List.find _ (take j _)) as [r'|] eqn:Hf'.
      * inversion Hf; subst. apply List.find_some in Hf' as [Hin _].
        by apply list_elem_of_In.
      * exfalso. eapply List.find_none in Hf';
          [|apply list_elem_of_In, (list_elem_of_lookup_2 _ i)].
        -- unfold has_content in Hf'. by rewrite String.eqb_refl in Hf'.
        -- rewrite lookup_take_lt by done. exact Hi.
    + exfalso. eapply List.find_none in Hf;
        [|apply list_elem_of_In, (list_elem_of_lookup_2 _ i), Hi].
      unfold has_content in Hf. by rewrite String.eqb_refl in Hf.
  - intros result st0 Hin. simpl.
    rewrite bool_decide_eq_false_2; [done|]. by intros Hn.
Qed.

End Dedup.

(** ** Extraction: the text of the matched elements *)

Lemma app_nil_l (s : string) : "" +:+ s = s.
Proof. reflexivity. Qed.

Lemma app_cons (c : ascii) (s t : string) :
  String c s +:+ t = String c (s +:+ t).
Proof. reflexivity. Qed.

Lemma app_nil_r (s : string) : s +:+ "" = s.
Proof. induction s as [|c s IH]; [done|]. by rewrite app_cons, IH. Qed.

Lemma app_assoc_str (s t u : string) : (s +:+ t) +:+ u = s +:+ t +:+ u.
Proof. induction s as [|c s IH]; [done|]. by rewrite !app_cons, IH. Qed.

Lemma string_of_list_ascii_snoc (l : list ascii) (c : ascii) (t : string) :
  string_of_list_ascii (l ++ [c]) +:+ t
  = string_of_list_ascii l +:+ String c t.
Proof.
  induction l as [|d l IH]; simpl; [done|].
  by rewrite !app_cons, IH.
Qed.

(** [" ".join(s.split())] is that collapsing. *)
Lemma split_join_phases (s : string) :
  (∀ cur, cur ≠ [] →
     PyStr.split_go cur s ≠ []
     ∧ PyStr.join " " (PyStr.split_go cur s)
       = string_of_list_ascii (rev cur) +:+ collapse_from InWord s)
  ∧ collapse_from Gap s
    = match PyStr.split_go [] s with
      | [] => ""
      | l => " " +:+ PyStr.join " " l
      end
  ∧ collapse_from Leading s = PyStr.join " " (PyStr.split_go [] s).
Proof.
  induction s as [|c s (IHword & IHgap & IHlead)]; simpl.
  - split; [|done]. intros cur Hcur.
    destruct cur; [done|]. split; [done|]. simpl. by rewrite app_nil_r.
  - destruct (PyStr.isspace c).
    + split; [|done]. intros cur Hcur.
      destruct cur as [|d cur]; [done|]. split; [done|].
      rewrite IHgap. simpl.
      destruct (PyStr.split_go [] s); [by rewrite app_nil_r|done].
    + split; [|split].
      * intros cur Hcur. destruct (IHword (c :: cur)) as [Hne Heq]; [done|].
        split; [done|]. rewrite Heq. simpl.
        apply string_of_list_ascii_snoc.
      * destruct (IHword [c]) as [Hne Heq]; [done|].
        destruct (PyStr.split_go [c] s) eqn:Hsp; [done|].
        simpl in Heq. by rewrite Heq.
      * destruct (IHword [c]) as [Hne Heq]; [done|]. by rewrite Heq.
Qed.

Lemma split_join_collapses (s : string) :
  PyStr.join " " (PyStr.split s) = collapse_whitespace s.
Proof. symmetry. apply split_join_phases. Qed.

Lemma text_content_collapsed (elements : list Tag) :
  text_content elements
  = PyStr.join PyStr.nl
      ((λ element, collapse_whitespace (get_text element)) <$> elements).
Proof.
  unfold text_content. f_equal. apply list_fmap_ext.
  intros i element _. apply split_join_collapses.
Qed.


(** ** Extraction: the regex step *)

Lemma join_values_go_strs (strs : list string) :
  ∀ index, join_values_go index (VStr <$> strs) = inr strs.
Proof.
  induction strs as [|s strs IH]; intros index; simpl; [done|].
  by rewrite IH.
Qed.

Lemma join_values_strs (sep : string) (strs : list string) :
  join_values sep (VStr <$> strs) = inr (PyStr.join sep strs).
Proof. unfold join_values. by rewrite join_values_go_strs. Qed.



(** ** The empty pattern *)

Lemma join_empty_strings (n : nat) :
  PyStr.join PyStr.nl (replicate (S n) "") = PyStr.newlines n.
Proof.
  induction n as [|n IH]; [done|].
  change (replicate (S (S n)) "") with ("" :: replicate (S n) "").
  cbn [PyStr.join]. cbn [replicate] in *. by rewrite IH.
Qed.

Lemma length_list_ascii (s : string) :
  length (list_ascii_of_string s) = String.length s.
Proof. induction s as [|c s IH]; simpl; [done|]. by rewrite IH. Qed.

Lemma scan_eps (s : list ascii) :
  Re.scan Re.Eps 0 s 0
  = replicate (S (length s)) {| Re.whole := ""; Re.subgroups := [] |}.
Proof.
  induction s as [|c s IH].
  - reflexivity.
  - cbn [Re.scan]. unfold Re.match_at. cbn [Re.run andb].
    rewrite Nat.sub_diag, Nat.eqb_refl. unfold Re.match_of. cbn [take].
    by rewrite IH.
Qed.

Lemma findall_empty_pattern (content : string) :
  Re.findall empty_pattern content
  = replicate (S (String.length content)) (Re.MStr "").
Proof.
  unfold Re.findall, empty_pattern, Re.of_syntax.
  cbn [Re.finditer Re.groups].
  by rewrite scan_eps, length_list_ascii, fmap_replicate.
Qed.

Lemma regex_step_empty_pattern (normalized_url content : string) :
  regex_step (Some empty_pattern) normalized_url content
  = inr (PyStr.newlines (String.length content)).
Proof.
  unfold regex_step. rewrite findall_empty_pattern.
  change (replicate (S (String.length content)) (Re.MStr ""))
    with (Re.MStr "" :: replicate (String.length content) (Re.MStr "")).
  cbv iota.
  change (Re.MStr "" :: replicate (String.length content) (Re.MStr ""))
    with (replicate (S (String.length content)) (Re.MStr "")).
  rewrite fmap_replicate. cbn [value_of_match].
  rewrite <- (fmap_replicate VStr), join_values_strs.
  by rewrite join_empty_strings.
Qed.

Lemma newlines_truthy (n : nat) :
  PyStr.truthy (PyStr.newlines n) = true → ∃ m, n = S m.
Proof. destruct n; [done|]. by exists n. Qed.

Lemma length_truthy (s : string) :
  PyStr.truthy s = true → ∃ m, String.length s = S m.
Proof. destruct s as [|c s]; [done|]. by exists (String.length s). Qed.

(** With the empty pattern the extraction of text gives as many newlines
    as the selected text has characters. *)
Lemma extract_text_empty_pattern (select : soup → string → exn + list Tag)
    a normalized_url html elements :
  regex a = Some empty_pattern →
  PyStr.lower (content_type a) = "text" →
  attribute a = "" →
  select {| features := "html.parser"; markup := html |} (selector a)
  = inr elements →
  PyStr.truthy (text_content elements) = true →
  extract select a normalized_url html
  = inr {| url := normalized_url;
           content := PyStr.newlines (String.length (text_content elements));
           attributes := "" |}.
Proof.
  intros Hre Hkind Hattr Hsel Htruthy.
  unfold extract. rewrite html_parser_known. simpl. rewrite Hsel. simpl.
  destruct elements as [|element rest]; [done|].
  rewrite Hkind, Hre, Hattr. simpl String.eqb. cbv iota.
  unfold bind_exn at 1. rewrite regex_step_empty_pattern.
  unfold bind_exn. cbn [andb PyStr.truthy].
  destruct (length_truthy _ Htruthy) as [m Hm]. by rewrite Hm.
Qed.

(** Whatever the content type, a record extracted with the empty pattern
    holds newlines only. *)
Lemma extract_empty_pattern (select : soup → string → exn + list Tag)
    a normalized_url html data :
  regex a = Some empty_pattern →
  extract select a normalized_url html = inr data →
  ∃ n, content data = PyStr.newlines (S n).
Proof.
  intros Hre. unfold extract.
  rewrite html_parser_known. simpl.
  destruct (select _ _) as [e|elements]; [done|]. simpl.
  destruct elements as [|element rest]; [done|].
  rewrite Hre.
  match goal with
  | |- context [bind_exn ?m _] => destruct m as [e|c]; [done|]
  end.
  unfold bind_exn at 1. rewrite regex_step_empty_pattern.
  unfold bind_exn at 1.
  match goal with
  | |- context [bind_exn ?m _] => destruct m as [e|attributes]; [done|]
  end.
  unfold bind_exn. destruct (PyStr.truthy _) eqn:Ht; [|done].
  intros [= <-]. simpl. apply newlines_truthy in Ht as [m ->]. by exists m.
Qed.

(** ** The two ways to fetch *)

Section Modes.

Variable chrome : nat → list string → string → render_outcome.
Variable http : nat → http_request → http_outcome.
Variable select : soup → string → exn + list Tag.

Lemma headless_loop_any_proxy a p p' u :
  ∀ fuel attempts clock,
    scrape_loop chrome http select fuel (with_mode true p a) u attempts clock
    = scrape_loop chrome http select fuel (with_mode true p' a) u attempts
        clock.
Proof.
  induction fuel as [|fuel IH]; intros attempts clock; [done|].
  simpl. by rewrite IH.
Qed.

(** C9, evaluated. The plain fetch sends one [requests.get] with the
    timeout and, when a proxy is set, with the proxy for both schemes.
    The headless fetch starts Chrome with the single option
    [--headless], whatever the proxy is: [scrape_url] does the same with
    any proxy as with none, no event of the fetch mentions the proxy, and
    the timeout is only handed to [implicitly_wait] after [driver.get]
    has returned. *)
Theorem headless_fetch_ignores_proxy a p u clock :
  (fetch_html chrome http (with_mode false p a) u clock).2
  = [EvHttpGet {| req_url := u; req_headers := None;
                  req_timeout := timeout a;
                  req_proxies := proxies_of p |}]
  ∧ scrape_url chrome http select (with_mode true p a) clock
    = scrape_url chrome http select (with_mode true "" a) clock
  ∧ fetch_html chrome http (with_mode true p a) u clock
    = fetch_html chrome http (with_mode true "" a) u clock
  ∧ ((fetch_html chrome http (with_mode true p a) u clock).2
     = [EvChromeLaunch ["--headless"]]
     ∨ (fetch_html chrome http (with_mode true p a) u clock).2
       = [EvChromeLaunch ["--headless"]; EvDriverGet u; EvDriverQuit]
     ∨ (fetch_html chrome http (with_mode true p a) u clock).2
       = [EvChromeLaunch ["--headless"]; EvDriverGet u;
          EvImplicitlyWait (timeout a); EvDriverQuit]).
Proof.
  split; [|split; [|split]].
  - unfold fetch_html. simpl.
    destruct (http _ _) as [e|r]; [done|].
    by destruct (raise_for_status r).
  - unfold scrape_url. simpl. apply headless_loop_any_proxy.
  - done.
  - unfold fetch_html. simpl.
    destruct (chrome _ _ _); auto.
Qed.

End Modes.

(** * The properties on the small world *)

(** A run that meets every hypothesis of [scrape_url_retry_exact]. *)
Lemma scrape_url_retry_exact_witness :
  (retry_attempts Toy.args = 2 ∧ 0 ≤ 2)
  ∧ ∃ evs,
      scrape_url Toy.chrome_down Toy.http_down Toy.select Toy.args 0
      = Some (None, evs, 3%nat)
      ∧ Z.of_nat (count is_fetch evs) = 2 + 1
      ∧ List.filter is_sleep evs = [EvSleep 1; EvSleep 1]
      ∧ length (List.filter is_status evs) = 1%nat.
Proof.
  split; [by split|].
  destruct (scrape_url_retry_exact Toy.chrome_down Toy.http_down Toy.select
              Toy.args 2 0)
    as (e & last & evs & He & Hurl & Hevs & Hf & Hs & Ht).
  - reflexivity.
  - done.
  - intros n. eexists _, _. reflexivity.
  - exists evs. split; [exact Hurl|]. split; [exact Hf|]. split; [exact Hs|].
    rewrite Ht. reflexivity.
Defined.

Lemma toy_st1_reachable :
  reachable Toy.chrome Toy.http Toy.select Toy.urljoin Toy.cfg Toy.st1.
Proof. apply steps_reachable. constructor. Defined.

Lemma toy_at_cap_reachable :
  reachable Toy.chrome Toy.http Toy.select Toy.urljoin Toy.cfg_many Toy.at_cap.
Proof. apply steps_reachable. constructor. Defined.

(** [depth_bound] after the first seed of [Toy.cfg] has been dispatched. *)
Lemma depth_bound_witness :
  reachable Toy.chrome Toy.http Toy.select Toy.urljoin Toy.cfg Toy.st1
  ∧ dispatched Toy.st1 = [("https://a.com", 0)]
  ∧ Forall (λ e, e.2 ≤ depth Toy.cfg) (dispatched Toy.st1).
Proof.
  split; [exact toy_st1_reachable|]. split; [vm_compute; reflexivity|].
  destruct (depth_bound Toy.chrome Toy.http Toy.select Toy.urljoin Toy.cfg
              Toy.st1 toy_st1_reachable) as [H _].
  exact H.
Defined.

(** [all_urls_within_cap] at the cap: 100 of 101 seeds have been
    scraped, the set holds 100 URLs, and the last seed is dropped. *)
Lemma all_urls_within_cap_witness :
  reachable Toy.chrome Toy.http Toy.select Toy.urljoin Toy.cfg_many Toy.at_cap
  ∧ queue Toy.at_cap = [("https://a.com/100", 0)]
  ∧ size (all_urls Toy.at_cap) = 100%nat
  ∧ total_urls Toy.at_cap ≤ 100
  ∧ ∃ st', Toy.step Toy.cfg_many Toy.at_cap = Continue st'
           ∧ queue st' = [] ∧ all_urls st' = all_urls Toy.at_cap
           ∧ dispatched st' = dispatched Toy.at_cap
           ∧ trace st' = trace Toy.at_cap.
Proof.
  destruct (all_urls_within_cap Toy.chrome Toy.http Toy.select Toy.urljoin
              Toy.cfg_many Toy.at_cap toy_at_cap_reachable)
    as (_ & Htotal & _ & _ & Hdrop).
  split; [exact toy_at_cap_reachable|]. split; [vm_compute; reflexivity|].
  split; [vm_compute; reflexivity|]. split; [exact Htotal|].
  apply (Hdrop "https://a.com/100" 0 []); [vm_compute; reflexivity|].
  vm_compute. lia.
Defined.

(** [dedup_first_wins] on two seeds with the same heading. *)
Lemma dedup_first_wins_witness :
  Toy.outcome = Completed Toy.results Toy.final
  ∧ produced Toy.final
    = [ {| url := "https://a.com"; content := "Title"; attributes := "" |};
        {| url := "https://b.com"; content := "Title"; attributes := "" |} ]
  ∧ Toy.results
    = [ {| url := "https://a.com"; content := "Title"; attributes := "" |} ]
  ∧ List.filter (has_content "Title") Toy.results
    = first_with "Title" (produced Toy.final).
Proof.
  split; [vm_compute; reflexivity|]. split; [vm_compute; reflexivity|].
  split; [vm_compute; reflexivity|].
  destruct (dedup_first_wins Toy.chrome Toy.http Toy.select Toy.urljoin 2
              Toy.cfg 0 [] Toy.results Toy.final) as [H _].
  - vm_compute. reflexivity.
  - apply H.
Defined.




(** A repeat whose last round consumes nothing keeps the capture of that
    round: a group of word characters, repeated and followed by [!], is
    empty in [Title!]. *)
Lemma empty_round_capture :
  ∃ p, Re.compile "(\w*)+!" = Re.Parsed p
       ∧ Re.whole <$> Re.finditer p "Title!" = ["Title!"]
       ∧ Re.findall p "Title!" = [Re.MStr ""].
Proof. eexists. split; [reflexivity|]. split; reflexivity. Qed.

(** The crawl of one seed with depth 1, on a page with a link: the page
    is fetched again for its links, the parser is not found, and the run
    ends with nothing but the seed dispatched. *)
Lemma toy_crawl_enqueues_nothing :
  Toy.outcome_one
  = Completed
      [ {| url := "https://a.com"; content := "Title"; attributes := "" |} ]
      Toy.final_one
  ∧ dispatched Toy.final_one = [("https://a.com", 0)]
  ∧ queue Toy.final_one = []
  ∧ List.filter is_status (trace Toy.final_one)
    = [ EvStatus "Scraped https://a.com";
        EvStatus
          ("Error crawling links from https://a.com: "
           +:+ exn_str (FeatureNotFound "html_parser"));
        EvStatus "Scraping completed" ].
Proof.
  split; [vm_compute; reflexivity|].
  split; [vm_compute; reflexivity|].
  split; vm_compute; reflexivity.
Qed.

(** The headless fetch with a proxy set: Chrome is started with
    [--headless] alone. *)
Lemma toy_headless_with_proxy :
  (fetch_html Toy.chrome Toy.http
     (with_mode true "http://proxy:8080" Toy.args) "https://a.com" 0).2
  = [ EvChromeLaunch ["--headless"]; EvDriverGet "https://a.com";
      EvImplicitlyWait 10; EvDriverQuit ].
Proof. reflexivity. Qed.

(** The end-to-end scenario with an empty regex field: the heading
    [Title] comes back as five newlines. *)
Lemma toy_empty_regex :
  Toy.scraped
  = [ {| url := "https://a.com"; content := PyStr.newlines 5;
         attributes := "" |} ].
Proof. vm_compute. reflexivity. Qed.

(** * Further properties of the scraper *)

(** ** [normalize_url] *)

Lemma normalize_url_has_scheme (raw : string) : has_scheme (normalize_url raw).
Proof.
  unfold normalize_url.
  destruct (PyStr.startswith_any raw _) eqn:Hs; simpl.
  - by apply startswith_scheme.
  - exists raw. by right.
Qed.

Lemma normalize_url_twice (raw : string) :
  normalize_url (normalize_url raw) = normalize_url raw.
Proof.
  pose proof (normalize_url_has_scheme raw) as Hscheme.
  apply startswith_scheme in Hscheme.
  unfold normalize_url at 1. by rewrite Hscheme.
Qed.

(** X1. Normalising twice is normalising once, and a normalised URL always
    starts with one of the two schemes. *)
Theorem normalize_url_idempotent (raw : string) :
  normalize_url (normalize_url raw) = normalize_url raw
  ∧ has_scheme (normalize_url raw).
Proof.
  split; [apply normalize_url_twice | apply normalize_url_has_scheme].
Qed.

(** ** [scrape_url]: what a call does *)

Section Calls.

Variable chrome : nat → list string → string → render_outcome.
Variable http : nat → http_request → http_outcome.
Variable select : soup → string → exn + list Tag.

Local Abbreviation try_once := (attempt chrome http select).
Local Abbreviation loop := (scrape_loop chrome http select).
Local Abbreviation retries := (retried chrome http select).

Lemma fetch_html_allowed a u n :
  Forall (allowed a u) (fetch_html chrome http a u n).2.
Proof.
  unfold fetch_html. destruct (use_headless a).
  - destruct (chrome _ _ _); by repeat constructor.
  - destruct (http _ _) as [e|r]; [by repeat constructor|].
    destruct (raise_for_status r); by repeat constructor.
Qed.

(** A record that [extract] returns is for the URL asked, and its content
    is not empty. *)
Lemma extract_returns a u html data :
  extract select a u html = inr data →
  url data = u ∧ PyStr.truthy (content data) = true.
Proof.
  unfold extract. rewrite html_parser_known. simpl.
  destruct (select _ _) as [e|elements]; [done|]. simpl.
  destruct elements as [|element rest]; [done|].
  match goal with
  | |- context [bind_exn ?m _] => destruct m as [e|c]; [done|]
  end.
  unfold bind_exn at 1.
  destruct (regex_step _ _ _) as [e|c']; [done|].
  unfold bind_exn at 1.
  match goal with
  | |- context [bind_exn ?m _] => destruct m as [e|attributes]; [done|]
  end.
  unfold bind_exn. destruct (PyStr.truthy c') eqn:Ht; [|done].
  by intros [= <-].
Qed.

Lemma attempt_events a u n :
  let '(r, evs) := try_once a u n in
  count is_fetch evs = 1%nat ∧ List.filter is_sleep evs = []
  ∧ Forall (allowed a u) evs
  ∧ match r with
    | inl _ => List.filter is_status evs = []
    | inr data =>
        List.filter is_status evs = [EvStatus ("Scraped " +:+ u)]
        ∧ url data = u ∧ PyStr.truthy (content data) = true
    end.
Proof.
  unfold attempt.
  pose proof (fetch_html_events chrome http a u n) as (Hf & Hs & Ht).
  pose proof (fetch_html_allowed a u n) as Hall.
  destruct (fetch_html chrome http a u n) as [page evs0]. simpl in *.
  destruct page as [e|html]; [done|].
  destruct (extract select a u html) as [e|data] eqn:Hex; [done|].
  apply extract_returns in Hex as [Hurl Hcontent].
  rewrite count_app, !List.filter_app, Hf, Hs, Ht. simpl.
  repeat split; try done.
  apply Forall_app. split; [done|]. by repeat constructor.
Qed.

(** The shape of every run of the loop. *)
Lemma scrape_loop_shape a u :
  ∀ fuel attempts clock r evs clock',
    loop fuel a u attempts clock = Some (r, evs, clock') →
    ∃ n, clock' = (clock + n)%nat
         ∧ count is_fetch evs = n
         ∧ Z.of_nat n ≤ Z.max 0 (retry_attempts a - attempts + 1)
         ∧ (attempts ≤ retry_attempts a → (1 ≤ n)%nat)
         ∧ count is_sleep evs = pred n
         ∧ Forall (allowed a u) evs
         ∧ match r with
           | Some data => url data = u ∧ PyStr.truthy (content data) = true
           | None => True
           end.
Proof.
  induction fuel as [|fuel IH]; intros attempts clock r evs clock'; simpl.
  - destruct (Z.leb_spec attempts (retry_attempts a)); [done|].
    intros [= <- <- <-]. exists O. rewrite Nat.add_0_r.
    repeat split; try done; lia.
  - destruct (Z.leb_spec attempts (retry_attempts a)).
    2:{ intros [= <- <- <-]. exists O. rewrite Nat.add_0_r.
        repeat split; try done; lia. }
    pose proof (attempt_events a u clock) as Hev.
    destruct (try_once a u clock) as [[e|data] evs0].
    + destruct Hev as (Hf & Hs & Hall & Ht).
      assert (count is_sleep evs0 = 0%nat) as Hs0
        by (unfold count; by rewrite Hs).
      destruct (Z.gtb_spec (attempts + 1) (retry_attempts a)).
      * intros [= <- <- <-]. exists 1%nat.
        rewrite !count_app, Hf, Hs0.
        split; [lia|]. split; [done|]. split; [lia|]. split; [done|].
        split; [done|].
        split; [|done]. apply Forall_app. split; [done|].
        by repeat constructor.
      * destruct (loop fuel a u (attempts + 1) (S clock))
          as [[[r1 evs1] clock1]|] eqn:Hloop; [|done].
        intros [= <- <- <-].
        destruct (IH _ _ _ _ _ Hloop)
          as (n & -> & Hn & Hle & Hone & Hsl & Hal & Hr).
        exists (S n). change (EvSleep 1 :: evs1) with ([EvSleep 1] ++ evs1).
        rewrite !count_app, Hf, Hn, Hs0, Hsl.
        split; [lia|]. split; [done|]. split; [lia|]. split; [lia|].
        split; [unfold count; simpl; lia|].
        split; [|done]. apply Forall_app. split; [done|].
        apply Forall_cons. by split.
    + destruct Hev as (Hf & Hs & Hall & Ht & Hurl & Hcontent).
      assert (count is_sleep evs0 = 0%nat) as Hs0
        by (unfold count; by rewrite Hs).
      intros [= <- <- <-]. exists 1%nat. rewrite Hf, Hs0.
      split; [lia|]. split; [done|]. split; [lia|]. done.
Qed.

(** X2. However the world answers, a call [scrape_url] makes at most
    [retry_attempts + 1] fetches (none when that is negative), one per
    tick of the clock, with one sleep less than fetches; every action is
    for the normalized URL, the plain GET carries no headers, Chrome gets
    [--headless] only, every sleep is of 1; a record that is returned is
    for the normalized URL and has content. *)
Theorem scrape_url_shape (a : scrape_args) (clock : nat) :
  ∃ r evs n,
    scrape_url chrome http select a clock = Some (r, evs, (clock + n)%nat)
    ∧ count is_fetch evs = n
    ∧ Z.of_nat n ≤ Z.max 0 (retry_attempts a + 1)
    ∧ count is_sleep evs = pred n
    ∧ Forall (allowed a (normalize_url (arg_url a))) evs
    ∧ match r with
      | Some data =>
          url data = normalize_url (arg_url a)
          ∧ PyStr.truthy (content data) = true
      | None => True
      end.
Proof.
  destruct (scrape_url_total chrome http select a clock)
    as [[[r evs] clock'] Hrun].
  unfold scrape_url in *.
  destruct (scrape_loop_shape _ _ _ _ _ _ _ _ Hrun)
    as (n & -> & Hn & Hle & _ & Hrest).
  exists r, evs, n. split; [done|]. split; [done|].
  split; [lia|done].
Qed.

(** X3. With a negative [retry_attempts] the loop is not entered: the call
    returns [None] at once, without a fetch and without any status, so the
    failure is not reported. *)
Theorem scrape_url_negative_retries (a : scrape_args) (clock : nat) :
  retry_attempts a < 0 →
  scrape_url chrome http select a clock = Some (None, [], clock).
Proof.
  intros Hneg. unfold scrape_url.
  destruct (Z.to_nat (retry_attempts a + 1)); simpl;
    by destruct (Z.leb_spec 0 (retry_attempts a)); [lia|].
Qed.

Lemma retried_counts_upto a u :
  ∀ j clock,
    (∀ i, (i < j)%nat → ∃ e evs, try_once a u (clock + i) = (inl e, evs)) →
    count is_fetch (retries a u clock j) = j
    ∧ List.filter is_sleep (retries a u clock j) = replicate j (EvSleep 1)
    ∧ List.filter is_status (retries a u clock j) = [].
Proof.
  induction j as [|j IH]; intros clock Hfail; [done|].
  rewrite retried_S.
  destruct (Hfail O) as (e & evs & He); [lia|].
  rewrite Nat.add_0_r in He.
  destruct (attempt_failed_events _ _ _ _ _ _ _ _ He) as (Hf & Hs & Ht).
  destruct (IH (S clock)) as (IHf & IHs & IHt).
  { intros i Hi. destruct (Hfail (S i)) as (e' & evs' & He'); [lia|].
    exists e', evs'. by rewrite Nat.add_succ_r in He'. }
  rewrite He. cbn [snd]. rewrite !count_app, !List.filter_app.
  by rewrite Hf, Hs, Ht, IHf, IHs, IHt.
Qed.

Lemma scrape_loop_succeeds a u data last :
  ∀ j fuel attempts clock,
    attempts + Z.of_nat j ≤ retry_attempts a →
    (j < fuel)%nat →
    (∀ i, (i < j)%nat → ∃ e evs, try_once a u (clock + i) = (inl e, evs)) →
    try_once a u (clock + j) = (inr data, last) →
    loop fuel a u attempts clock
    = Some (Some data, retries a u clock j ++ last, S (clock + j)).
Proof.
  induction j as [|j IH]; intros fuel attempts clock Hle Hfuel Hfail Hok.
  - destruct fuel as [|fuel]; [lia|]. simpl.
    rewrite Nat.add_0_r in Hok. rewrite Hok, Nat.add_0_r.
    by destruct (Z.leb_spec attempts (retry_attempts a)); [|lia].
  - destruct fuel as [|fuel]; [lia|]. simpl.
    destruct (Hfail O) as (e & evs & He); [lia|].
    rewrite Nat.add_0_r in He. rewrite He.
    destruct (Z.leb_spec attempts (retry_attempts a)); [|lia].
    destruct (Z.gtb_spec (attempts + 1) (retry_attempts a)); [lia|].
    rewrite (IH fuel (attempts + 1) (S clock)); [| lia | lia | |].
    + rewrite retried_S, He. simpl.
      by rewrite <- !app_assoc, Nat.add_succ_r.
    + intros i Hi. destruct (Hfail (S i)) as (e' & evs' & He'); [lia|].
      exists e', evs'. by rewrite Nat.add_succ_r in He'.
    + by rewrite Nat.add_succ_r in Hok.
Qed.

(** X4. If the first [j] attempts fail and the next one succeeds, with
    [j <= retry_attempts], the call returns the record of that attempt
    after [j + 1] fetches and [j] sleeps of 1, and its only status is
    [Scraped] with the normalized URL: no later attempt is made and the
    earlier failures are not reported. *)
Theorem scrape_url_first_success (a : scrape_args) (j clock : nat)
    (data : ScrapedData) (last : list event) :
  Z.of_nat j ≤ retry_attempts a →
  (∀ i, (i < j)%nat →
        ∃ e evs, try_once a (normalize_url (arg_url a)) (clock + i)
                 = (inl e, evs)) →
  try_once a (normalize_url (arg_url a)) (clock + j) = (inr data, last) →
  ∃ evs,
    scrape_url chrome http select a clock
    = Some (Some data, evs, S (clock + j))
    ∧ count is_fetch evs = S j
    ∧ List.filter is_sleep evs = replicate j (EvSleep 1)
    ∧ List.filter is_status evs
      = [EvStatus ("Scraped " +:+ normalize_url (arg_url a))].
Proof.
  intros Hle Hfail Hok. eexists. split.
  - unfold scrape_url. apply (scrape_loop_succeeds _ _ data last j);
      [lia | lia | done | done].
  - destruct (retried_counts_upto a _ j clock Hfail) as (Hf & Hs & Ht).
    pose proof (attempt_events a (normalize_url (arg_url a)) (clock + j))
      as Hev.
    rewrite Hok in Hev. destruct Hev as (Hf' & Hs' & _ & Ht' & _).
    rewrite count_app, !List.filter_app, Hf, Hs, Ht, Hf', Hs', Ht'.
    rewrite List.app_nil_r. split; [lia|done].
Qed.

End Calls.

(** ** [scrape_url]: content types and the attribute *)

Section Kinds.

Variable chrome : nat → list string → string → render_outcome.
Variable http : nat → http_request → http_outcome.
Variable select : soup → string → exn + list Tag.

Local Abbreviation try_once := (attempt chrome http select).
Local Abbreviation loop := (scrape_loop chrome http select).

Lemma extract_unknown_kind a u html :
  PyStr.lower (content_type a) ≠ "text" →
  PyStr.lower (content_type a) ≠ "links" →
  PyStr.lower (content_type a) ≠ "images" →
  extract select a u html
  = match select {| features := "html.parser"; markup := html |}
            (selector a) with
    | inl e => inl e
    | inr [] => inl (NoElementsFound (selector a) u)
    | inr (_ :: _) => inl (InvalidContentType (content_type a))
    end.
Proof.
  intros Ht Hl Hi. unfold extract. rewrite html_parser_known. simpl.
  destruct (select _ _) as [e|elements]; [done|]. simpl.
  destruct elements as [|element rest]; [done|].
  apply String.eqb_neq in Ht, Hl, Hi. by rewrite Ht, Hl, Hi.
Qed.

(** X5. A content type other than text, links or images (in any case of
    letters) is found out only after the page has been fetched and
    elements have been selected: an empty selection is still reported as
    such, any other is the invalid-content-type error; and since this
    fails on every attempt, each URL costs [retry_attempts + 1] fetches
    before the call returns [None]. *)
Theorem unknown_kind_costs_fetches (a : scrape_args) (clock : nat) :
  PyStr.lower (content_type a) ≠ "text" →
  PyStr.lower (content_type a) ≠ "links" →
  PyStr.lower (content_type a) ≠ "images" →
  0 ≤ retry_attempts a →
  (∀ u html,
     extract select a u html
     = match select {| features := "html.parser"; markup := html |}
               (selector a) with
       | inl e => inl e
       | inr [] => inl (NoElementsFound (selector a) u)
       | inr (_ :: _) => inl (InvalidContentType (content_type a))
       end)
  ∧ ∃ evs,
      scrape_url chrome http select a clock
      = Some (None, evs, S (clock + Z.to_nat (retry_attempts a)))
      ∧ Z.of_nat (count is_fetch evs) = retry_attempts a + 1.
Proof.
  intros Ht Hl Hi Hpos.
  split; [intros u html; by apply extract_unknown_kind|].
  assert (∀ n, ∃ e evs,
             try_once a (normalize_url (arg_url a)) n = (inl e, evs))
    as Hfail.
  { intros n. unfold attempt.
    destruct (fetch_html _ _ _ _ _) as [[e|html] evs]; [by eexists _, _|].
    rewrite extract_unknown_kind by done.
    destruct (select _ _) as [e|[|element rest]]; by eexists _, _. }
  destruct (scrape_loop_failing chrome http select a _ Hfail
              (Z.to_nat (retry_attempts a))
              (Z.to_nat (retry_attempts a + 1)) 0 clock)
    as (e & last & He & Hloop); [lia..|].
  eexists. split; [exact Hloop|].
  destruct (retried_counts chrome http select a _ Hfail clock
              (Z.to_nat (retry_attempts a))) as (Hf & _).
  destruct (attempt_failed_events _ _ _ _ _ _ _ _ He) as (Hf' & _).
  rewrite !count_app, Hf, Hf'. unfold count. simpl. lia.
Qed.

Lemma extract_any_attribute a x u html :
  PyStr.lower (content_type a) ≠ "text" →
  extract select (with_attribute x a) u html = extract select a u html.
Proof.
  intros Ht. apply String.eqb_neq in Ht.
  unfold extract, with_attribute. cbn [selector content_type regex attribute].
  rewrite html_parser_known. simpl.
  destruct (select _ _) as [e|elements]; [done|]. simpl.
  destruct elements as [|element rest]; [done|].
  by rewrite Ht.
Qed.

Lemma loop_any_attribute a x u :
  PyStr.lower (content_type a) ≠ "text" →
  ∀ fuel attempts clock,
    loop fuel (with_attribute x a) u attempts clock
    = loop fuel a u attempts clock.
Proof.
  intros Ht. induction fuel as [|fuel IH]; intros attempts clock; [done|].
  simpl. rewrite IH. unfold attempt.
  change (fetch_html chrome http (with_attribute x a) u clock)
    with (fetch_html chrome http a u clock).
  destruct (fetch_html chrome http a u clock) as [[e|html] evs]; [done|].
  by rewrite extract_any_attribute.
Qed.

(** X6. The attribute name only matters for the content type text: for
    links, images or anything else the call does the same and returns the
    same whatever the attribute field holds, and the [attributes] of a
    returned record are empty. *)
Theorem attribute_only_for_text (a : scrape_args) (x : string) (clock : nat) :
  PyStr.lower (content_type a) ≠ "text" →
  scrape_url chrome http select (with_attribute x a) clock
  = scrape_url chrome http select a clock
  ∧ ∀ u html data,
      extract select a u html = inr data → attributes data = "".
Proof.
  intros Ht. split.
  - unfold scrape_url. by apply loop_any_attribute.
  - apply String.eqb_neq in Ht. intros u html data. unfold extract.
    rewrite html_parser_known. simpl.
    destruct (select _ _) as [e|elements]; [done|]. simpl.
    destruct elements as [|element rest]; [done|].
    rewrite Ht.
    match goal with
    | |- context [bind_exn ?m _] => destruct m as [e|c]; [done|]
    end.
    unfold bind_exn at 1.
    destruct (regex_step _ _ _) as [e|c']; [done|].
    unfold bind_exn. simpl.
    destruct (PyStr.truthy c'); [|done]. by intros [= <-].
Qed.

End Kinds.

(** ** The crawl as a whole *)

Section Crawl.

Variable chrome : nat → list string → string → render_outcome.
Variable http : nat → http_request → http_outcome.
Variable select : soup → string → exn + list Tag.
Variable urljoin : string → string → exn + string.

Local Abbreviation step := (worker_step chrome http select urljoin).
Local Abbreviation run := (worker_loop chrome http select urljoin).
Local Abbreviation reach := (reachable chrome http select urljoin).
Local Abbreviation crawl := (scrape_worker chrome http select urljoin).

Lemma seed_entry_in_set cfg n u d :
  seed_entries cfg !! n = Some (u, d) → d = 0 ∧ u ∈ seed_set cfg.
Proof.
  unfold seed_entries, seed_set. rewrite list_lookup_fmap.
  destruct (urls cfg !! n) as [seed|] eqn:Hseed; [|done].
  intros [= <- <-]. split; [done|].
  apply elem_of_list_to_set, list_elem_of_fmap.
  exists seed. split; [done|]. by eapply list_elem_of_lookup_2.
Qed.

(** While fewer than 100 distinct seeds are known and the depth is not
    negative, the loop walks down the seeds and dispatches each. *)
Lemma seeds_walk cfg st :
  0 ≤ depth cfg →
  (size (seed_set cfg) < 100)%nat →
  reach cfg st →
  ∃ n, queue st = drop n (seed_entries cfg)
       ∧ dispatched st = take n (seed_entries cfg)
       ∧ all_urls st ⊆ seed_set cfg.
Proof.
  intros Hdepth Hsize.
  induction 1 as [clock0 trace0|st st' _ (n & Hq & Hd & Hsub) Hstep].
  - exists O. by rewrite drop_0.
  - apply step_continue in Hstep as (u & d & rest & Hq' & Hrest & Hcase).
    assert (seed_entries cfg !! n = Some (u, d)) as Hn.
    { rewrite <- (Nat.add_0_r n), <- lookup_drop, <- Hq, Hq'. done. }
    destruct (seed_entry_in_set _ _ _ _ Hn) as [-> Hu].
    assert (drop (S n) (seed_entries cfg) = rest) as Hdrop.
    { replace (S n) with (n + 1)%nat by lia.
      by rewrite <- drop_drop, <- Hq, Hq'. }
    exists (S n). rewrite Hrest.
    destruct Hcase as [[-> [Hdeep|Hfull]]|(_ & _ & Hall & Hdis & _)].
    + lia.
    + apply subseteq_size in Hsub. simpl in Hfull. lia.
    + split; [done|]. rewrite Hdis, Hd, Hall.
      split; [by erewrite take_S_r|]. set_solver.
Qed.

(** X7. With a depth that is not negative and fewer than 100 distinct
    normalized seeds, a completed crawl has handed every seed to
    [scrape_url] once for each time it is listed, in the order of the
    list, at depth 0, and nothing else: a URL that is listed twice is
    scraped twice. *)
Theorem seeds_dispatched_in_order fuel cfg clock0 trace0 results st :
  0 ≤ depth cfg →
  (size (seed_set cfg) < 100)%nat →
  crawl fuel cfg clock0 trace0 = Completed results st →
  dispatched st = (λ url, (normalize_url url, 0)) <$> urls cfg.
Proof.
  intros Hdepth Hsize. unfold scrape_worker.
  destruct (worker_loop _ _ _ _ _ _ _) as [st1|e st1|] eqn:Hrun; [|done..].
  intros [= <- <-]. simpl.
  apply run_reachable in Hrun as [Hreach Hempty]; [|constructor].
  destruct (seeds_walk cfg st1 Hdepth Hsize Hreach) as (n & Hq & Hd & _).
  rewrite Hd. rewrite Hempty in Hq. symmetry in Hq.
  apply drop_nil_inv in Hq.
  by rewrite take_ge.
Qed.

(** What [scrape_url] returned during a run is for a seed. *)
Lemma produced_from_seeds cfg st :
  reach cfg st →
  Forall (λ r, (∃ seed, seed ∈ urls cfg ∧ url r = normalize_url seed)
               ∧ PyStr.truthy (content r) = true)
         (produced st).
Proof.
  induction 1 as [clock0 trace0|st st' Hreach IH Hstep]; [by constructor|].
  destruct (frontier_is_seeds _ _ _ _ _ _ Hreach) as [m Hm].
  apply step_continue in Hstep
    as (u & d & rest & Hq' & _ &
        [[-> _]|(_ & _ & _ & _ & _ & result & evs & clock' & Hscrape
                 & _ & _ & ->)]); [done|].
  destruct result as [data|]; simpl; [|done].
  apply Forall_app. split; [done|].
  constructor; [|done].
  unfold scrape_url in Hscrape.
  apply scrape_loop_shape in Hscrape
    as (k & _ & _ & _ & _ & _ & _ & Hurl & Hcontent).
  split; [|done]. simpl in Hurl.
  assert ((u, d) ∈ (λ url, (normalize_url url, 0)) <$> urls cfg) as Hin.
  { apply (subseteq_drop m). rewrite <- Hm, Hq'. by left. }
  apply list_elem_of_fmap in Hin as (seed & [= -> ->] & Hseed).
  exists seed. split; [done|].
  rewrite Hurl. apply normalize_url_twice.
Qed.

Lemma kept_in_made seen kept made r :
  dedup_inv seen kept made → r ∈ kept → r ∈ made.
Proof.
  intros [_ Hkept] Hin.
  assert (In r (List.filter (has_content (content r)) kept)) as Hf.
  { apply List.filter_In. split; [by apply list_elem_of_In|].
    unfold has_content. apply String.eqb_refl. }
  rewrite Hkept in Hf. unfold first_with in Hf.
  destruct (List.find _ made) as [r'|] eqn:Hfind; [|done].
  destruct Hf as [->|[]]. apply List.find_some in Hfind as [Hin' _].
  by apply list_elem_of_In.
Qed.

Lemma kept_nil_iff seen kept made :
  dedup_inv seen kept made → kept = [] ↔ made = [].
Proof.
  intros [_ Hkept]. split.
  - intros ->. destruct made as [|r made]; [done|].
    specialize (Hkept (content r)). unfold first_with in Hkept. simpl in Hkept.
    unfold has_content at 1 in Hkept.
    by rewrite String.eqb_refl in Hkept.
  - intros ->. destruct kept as [|r kept]; [done|].
    specialize (Hkept (content r)). simpl in Hkept.
    unfold has_content at 1 in Hkept.
    by rewrite String.eqb_refl in Hkept.
Qed.

(** X8. The last thing a completed crawl reports tells whether anything
    was scraped: it is [No successful results] exactly when every call of
    [scrape_url] returned [None], and [Scraping completed] otherwise; the
    results are empty in the first case only. *)
Theorem final_status_tells_success fuel cfg clock0 trace0 results st :
  crawl fuel cfg clock0 trace0 = Completed results st →
  (results = [] ↔ produced st = [])
  ∧ last (trace st)
    = Some (EvStatus match produced st with
                     | [] => "No successful results"
                     | _ => "Scraping completed"
                     end).
Proof.
  unfold scrape_worker.
  destruct (worker_loop _ _ _ _ _ _ _) as [st1|e st1|] eqn:Hrun; [|done..].
  intros [= <- <-]. simpl.
  apply run_reachable in Hrun as [Hreach _]; [|constructor].
  apply reachable_dedup in Hreach.
  pose proof (kept_nil_iff _ _ _ Hreach) as Hiff.
  split; [done|]. rewrite last_snoc.
  destruct (scraped_results st1) as [|r rs], (produced st1) as [|p ps];
    try done.
  - by destruct Hiff as [Hiff _]; specialize (Hiff eq_refl).
  - by destruct Hiff as [_ Hiff]; specialize (Hiff eq_refl).
Qed.

(** X9. Every record in the results of a completed crawl was returned by
    a call of [scrape_url], is for the normalized form of one of the seed
    URLs, and has content that is not empty. *)
Theorem results_are_seed_pages fuel cfg clock0 trace0 results st :
  crawl fuel cfg clock0 trace0 = Completed results st →
  Forall (λ r, r ∈ produced st
               ∧ (∃ seed, seed ∈ urls cfg ∧ url r = normalize_url seed)
               ∧ content r ≠ "")
         results.
Proof.
  unfold scrape_worker.
  destruct (worker_loop _ _ _ _ _ _ _) as [st1|e st1|] eqn:Hrun; [|done..].
  intros [= <- <-]. simpl.
  apply run_reachable in Hrun as [Hreach _]; [|constructor].
  pose proof (reachable_dedup _ _ _ _ _ _ Hreach) as Hinv.
  pose proof (produced_from_seeds _ _ Hreach) as Hmade.
  apply Forall_forall. intros r Hr.
  apply (kept_in_made _ _ _ _ Hinv) in Hr.
  split; [done|].
  rewrite Forall_forall in Hmade. destruct (Hmade r Hr) as [Hseed Hc].
  split; [done|]. by destruct (content r).
Qed.

End Crawl.

(** ** Strings: stripping, splitting and joining *)

Lemma rev_app_app (s t : string) :
  String.rev_app s t = String.rev s +:+ t.
Proof.
  revert t. induction s as [|a s IH]; intros t; [done|].
  unfold String.rev. simpl. rewrite (IH (String a t)), (IH (String a "")).
  by rewrite app_assoc_str, app_cons, app_nil_l.
Qed.

Lemma rev_cons (a : ascii) (s : string) :
  String.rev (String a s) = String.rev s +:+ String a "".
Proof. unfold String.rev at 1. simpl. apply rev_app_app. Qed.

Lemma rev_snoc (s : string) (a : ascii) :
  String.rev (s +:+ String a "") = String a (String.rev s).
Proof.
  induction s as [|b s IH]; [done|].
  by rewrite app_cons, !rev_cons, IH, app_cons.
Qed.

Lemma lstrip_snoc (t : string) (c : ascii) :
  PyStr.lstrip (t +:+ String c "")
  = match PyStr.lstrip t with
    | EmptyString => if PyStr.isspace c then "" else String c ""
    | r => r +:+ String c ""
    end.
Proof.
  induction t as [|d t IH].
  - rewrite app_nil_l. simpl. by destruct (PyStr.isspace c).
  - rewrite app_cons. simpl. by destruct (PyStr.isspace d).
Qed.

(** [rstrip], read from the front. *)
Lemma rstrip_cons (c : ascii) (s : string) :
  PyStr.rstrip (String c s)
  = match PyStr.rstrip s with
    | EmptyString => if PyStr.isspace c then "" else String c ""
    | r => String c r
    end.
Proof.
  unfold PyStr.rstrip. rewrite rev_cons, lstrip_snoc.
  destruct (PyStr.lstrip (String.rev s)) as [|d r]; simpl.
  - by destruct (PyStr.isspace c).
  - rewrite rev_snoc, rev_cons.
    by destruct (String.rev r).
Qed.

Lemma rstrip_empty : PyStr.rstrip "" = "".
Proof. reflexivity. Qed.

Lemma lstrip_idempotent (s : string) :
  PyStr.lstrip (PyStr.lstrip s) = PyStr.lstrip s.
Proof.
  induction s as [|c s IH]; [done|]. simpl.
  destruct (PyStr.isspace c) eqn:Hc; [done|]. simpl. by rewrite Hc.
Qed.

Lemma rstrip_idempotent (s : string) :
  PyStr.rstrip (PyStr.rstrip s) = PyStr.rstrip s.
Proof.
  induction s as [|c s IH]; [done|]. rewrite rstrip_cons.
  destruct (PyStr.rstrip s) as [|d r] eqn:Hr.
  - destruct (PyStr.isspace c) eqn:Hc; [done|].
    by rewrite rstrip_cons, rstrip_empty, Hc.
  - by rewrite rstrip_cons, IH.
Qed.

Lemma lstrip_rstrip (s : string) :
  PyStr.lstrip (PyStr.rstrip s) = PyStr.rstrip (PyStr.lstrip s).
Proof.
  induction s as [|c s IH]; [done|]. rewrite rstrip_cons. simpl.
  destruct (PyStr.isspace c) eqn:Hc.
  - destruct (PyStr.rstrip s) as [|d r] eqn:Hr.
    + by rewrite <- IH.
    + simpl. rewrite Hc. by rewrite <- IH.
  - rewrite rstrip_cons.
    destruct (PyStr.rstrip s) as [|d r]; simpl; by rewrite Hc.
Qed.

Lemma strip_trimmed (s : string) : trimmed (PyStr.strip s).
Proof.
  unfold trimmed, PyStr.strip. split.
  - by rewrite lstrip_rstrip, lstrip_idempotent.
  - apply rstrip_idempotent.
Qed.

Lemma trimmed_strip (s : string) : trimmed s → PyStr.strip s = s.
Proof. intros [Hl Hr]. unfold PyStr.strip. by rewrite Hl. Qed.

(** Stripping only removes characters. *)
Lemma lstrip_chars (s : string) : chars (PyStr.lstrip s) ⊆ chars s.
Proof.
  induction s as [|c s IH]; [done|]. simpl.
  destruct (PyStr.isspace c); [|done].
  unfold chars in *. simpl. set_solver.
Qed.

Lemma rstrip_chars (s : string) : chars (PyStr.rstrip s) ⊆ chars s.
Proof.
  induction s as [|c s IH]; [done|]. rewrite rstrip_cons.
  unfold chars in *.
  destruct (PyStr.rstrip s) as [|d r].
  - destruct (PyStr.isspace c); simpl; set_solver.
  - simpl in *. set_solver.
Qed.

Lemma strip_chars (s : string) : chars (PyStr.strip s) ⊆ chars s.
Proof.
  unfold PyStr.strip. etrans; [apply rstrip_chars | apply lstrip_chars].
Qed.

Lemma chars_app (s t : string) : chars (s +:+ t) = chars s ++ chars t.
Proof.
  unfold chars. induction s as [|c s IH]; [done|].
  rewrite app_cons. simpl. by rewrite IH.
Qed.

Lemma string_of_chars_app (l : list ascii) (s : string) :
  string_of_list_ascii (l ++ chars s) = string_of_list_ascii l +:+ s.
Proof.
  induction l as [|c l IH]; simpl.
  - apply string_of_list_ascii_of_string.
  - by rewrite IH, app_cons.
Qed.

(** A field without the separator is cut where the separator follows. *)
Lemma split_on_go_field (sep : ascii) (x : string) :
  sep ∉ chars x →
  ∀ cur,
    PyStr.split_on_go sep cur x = [string_of_list_ascii (rev cur) +:+ x]
    ∧ ∀ t, PyStr.split_on_go sep cur (x +:+ String sep t)
           = (string_of_list_ascii (rev cur) +:+ x)
               :: PyStr.split_on_go sep [] t.
Proof.
  induction x as [|c x IH]; intros Hsep cur.
  - split; [by rewrite app_nil_r|]. intros t.
    rewrite app_nil_l, app_nil_r. simpl. by rewrite Ascii.eqb_refl.
  - assert (c ≠ sep) as Hc by (unfold chars in Hsep; set_solver).
    assert (sep ∉ chars x) as Hx by (unfold chars in *; set_solver).
    destruct (IH Hx (c :: cur)) as [IH1 IH2].
    apply Ascii.eqb_neq in Hc. simpl. rewrite Hc.
    split.
    + rewrite IH1. simpl. by rewrite string_of_list_ascii_snoc.
    + intros t. rewrite IH2. simpl.
      by rewrite string_of_list_ascii_snoc.
Qed.

(** Splitting undoes joining when no field holds the separator. *)
Lemma split_on_join (sep : ascii) (fields : list string) :
  fields ≠ [] →
  Forall (λ x, sep ∉ chars x) fields →
  PyStr.split_on sep (PyStr.join (String sep "") fields) = fields.
Proof.
  intros Hne Hall. unfold PyStr.split_on.
  induction Hall as [|x rest Hx Hrest IH]; [done|].
  destruct rest as [|y rest].
  - simpl. by destruct (split_on_go_field sep x Hx []) as [-> _].
  - change (PyStr.join (String sep "") (x :: y :: rest))
      with (x +:+ String sep "" +:+ PyStr.join (String sep "") (y :: rest)).
    rewrite app_cons, app_nil_l.
    destruct (split_on_go_field sep x Hx []) as [_ ->].
    by rewrite IH.
Qed.

(** Every field of a split is free of the separator. *)
Lemma split_on_go_fields (sep : ascii) (s : string) :
  ∀ cur, sep ∉ cur →
         Forall (λ x, sep ∉ chars x) (PyStr.split_on_go sep cur s).
Proof.
  assert (∀ cur, sep ∉ cur →
                 sep ∉ chars (string_of_list_ascii (rev cur))) as Hcur.
  { intros cur Hnot. unfold chars.
    rewrite list_ascii_of_string_of_list_ascii. intros Hin. apply Hnot.
    apply list_elem_of_In, List.in_rev. by apply list_elem_of_In. }
  induction s as [|c s IH]; intros cur Hnot; simpl.
  - constructor; [by apply Hcur|done].
  - destruct (Ascii.eqb_spec c sep) as [->|Hc].
    + constructor; [by apply Hcur|]. apply IH. set_solver.
    + apply IH. set_solver.
Qed.

(** ** One line of text per element *)

Lemma collapse_only_spaces (s : string) :
  ∀ ph c, c ∈ chars (collapse_from ph s) → PyStr.isspace c = true → c = " "%char.
Proof.
  unfold chars.
  induction s as [|d s IH]; intros ph c; simpl; [by intros ?%elem_of_nil|].
  destruct (PyStr.isspace d) eqn:Hd; [apply IH|].
  destruct ph; simpl; rewrite ?elem_of_cons;
    intros Hin Hc; destruct_or?; subst; try congruence; try done;
    by eapply IH.
Qed.

(** X10. With content type text the content has one line per selected
    element: cutting it at the newlines gives back, in order, the
    collapsed text of each element, because collapsing leaves no newline
    inside a text. *)
Theorem text_lines_are_elements (elements : list Tag) :
  elements ≠ [] →
  PyStr.split_on (ascii_of_N 10) (text_content elements)
  = (λ element, collapse_whitespace (get_text element)) <$> elements.
Proof.
  intros Hne. rewrite text_content_collapsed.
  apply (split_on_join (ascii_of_N 10)); [by destruct elements|].
  apply Forall_fmap, Forall_forall. intros element _ Hin.
  by apply collapse_only_spaces in Hin.
Qed.

(** ** The seeds *)

(** X11. Every seed that [scrape] reads from the URL field is not empty,
    has no white space at either end and holds no comma. *)
Theorem seed_urls_clean (url_input : string) :
  Forall (λ u, u ≠ "" ∧ trimmed u ∧ ","%char ∉ chars u) (seed_urls url_input).
Proof.
  unfold seed_urls. apply Forall_fmap, Forall_forall.
  intros x [Htruthy Hin]%list_elem_of_filter. simpl.
  split; [by destruct (PyStr.strip x)|]. split; [apply strip_trimmed|].
  intros Hcomma%strip_chars.
  pose proof (split_on_go_fields "," url_input [] (not_elem_of_nil _)) as Hall.
  rewrite Forall_forall in Hall. by apply (Hall x).
Qed.

Lemma split_on_comma_join (tl : list string) :
  Forall (λ u, ","%char ∉ chars u) tl →
  ∀ p u, ","%char ∉ chars p → ","%char ∉ chars u →
         PyStr.split_on "," (p +:+ PyStr.join ", " (u :: tl))
         = (p +:+ u) :: (String " " <$> tl).
Proof.
  unfold PyStr.split_on.
  induction 1 as [|y rest Hy Hrest IH]; intros p u Hp Hu.
  - simpl. assert (","%char ∉ chars (p +:+ u)) as Hpu
      by (rewrite chars_app; set_solver).
    by destruct (split_on_go_field "," _ Hpu []) as [-> _].
  - change (PyStr.join ", " (u :: y :: rest))
      with (u +:+ ", " +:+ PyStr.join ", " (y :: rest)).
    rewrite <- app_assoc_str.
    change (", " +:+ PyStr.join ", " (y :: rest))
      with (String "," (" " +:+ PyStr.join ", " (y :: rest))).
    assert (","%char ∉ chars (p +:+ u)) as Hpu
      by (rewrite chars_app; set_solver).
    destruct (split_on_go_field "," _ Hpu []) as [_ ->].
    rewrite (IH " " y); [reflexivity| |done].
    unfold chars. simpl. set_solver.
Qed.

Lemma strip_spaced (l : list string) :
  Forall (λ u, u ≠ "" ∧ trimmed u ∧ ","%char ∉ chars u) l →
  PyStr.strip <$>
    filter (λ url, PyStr.truthy (PyStr.strip url) = true) (String " " <$> l)
  = l.
Proof.
  induction 1 as [|u l (Hne & Htrim & _) _ IH]; [done|].
  assert (PyStr.strip (String " " u) = u) as Hstrip
    by (by apply trimmed_strip in Htrim).
  rewrite fmap_cons, filter_cons_True.
  - by rewrite fmap_cons, Hstrip, IH.
  - rewrite Hstrip. by destruct u.
Qed.

(** Reading back a field that was written as a comma-separated list. *)
Lemma seed_urls_join (us : list string) :
  Forall (λ u, u ≠ "" ∧ trimmed u ∧ ","%char ∉ chars u) us →
  seed_urls (PyStr.join ", " us) = us.
Proof.
  intros Hall. destruct Hall as [|u tl (Hne & Htrim & Hcomma) Htl]; [done|].
  unfold seed_urls.
  rewrite <- (app_nil_l (PyStr.join ", " (u :: tl))).
  rewrite split_on_comma_join; [| |apply not_elem_of_nil|done].
  - rewrite app_nil_l, filter_cons_True.
    + rewrite fmap_cons, trimmed_strip by done. f_equal.
      by apply strip_spaced.
    + rewrite trimmed_strip by done. by destruct u.
  - eapply Forall_impl; [exact Htl|]. by intros x (_ & _ & ?).
Qed.

(** X12. Loading a file of URLs and then scraping reads back the lines of
    the file: when no line holds a comma, the seeds that [scrape] gets
    from the field that [load_urls_from_file] wrote are the stripped
    lines that are not blank, in order, and the status counts them; when
    every line is blank the field is left as it was. *)
Theorem load_then_seed (filename : string) (lines : list string)
    (url_input : string) :
  filename ≠ "" →
  Forall (λ line, ","%char ∉ chars line) lines →
  let urls :=
    PyStr.strip <$>
      filter (λ line, PyStr.truthy (PyStr.strip line) = true) lines in
  let '(field, statuses) :=
    load_urls_from_file filename (inr lines) url_input in
  match urls with
  | [] => field = url_input ∧ statuses = ["No valid URLS found in file"]
  | _ =>
      seed_urls field = urls
      ∧ statuses
        = ["Loaded " +:+ str_of_nat (length urls) +:+ " URLS from file"]
  end.
Proof.
  intros Hname Hlines urls. unfold load_urls_from_file.
  destruct filename as [|c name]; [done|]. simpl. fold urls.
  destruct urls as [|u tl] eqn:Hurls; [done|].
  split; [|done]. rewrite <- Hurls. apply seed_urls_join.
  unfold urls. apply Forall_fmap, Forall_forall.
  intros x [Hnb Hin]%list_elem_of_filter. simpl.
  split; [by destruct (PyStr.strip x)|]. split; [apply strip_trimmed|].
  intros Hcomma%strip_chars.
  rewrite Forall_forall in Hlines. by apply (Hlines x).
Qed.

(** ** Custom headers *)

Lemma parse_headers_fold (custom_headers : string) :
  parse_headers custom_headers
  = foldl header_step ∅
      (PyStr.split_on (ascii_of_N 10) (PyStr.strip custom_headers)).
Proof. reflexivity. Qed.

Lemma split_once_go_field (sep : ascii) (name : string) :
  sep ∉ chars name →
  ∀ cur rest,
    PyStr.split_once_go sep cur (name +:+ String sep rest)
    = [string_of_list_ascii (rev cur) +:+ name; rest].
Proof.
  induction name as [|c name IH]; intros Hsep cur rest.
  - rewrite app_nil_l, app_nil_r. simpl. by rewrite Ascii.eqb_refl.
  - assert (c ≠ sep) as Hc by (unfold chars in Hsep; set_solver).
    assert (sep ∉ chars name) as Hname by (unfold chars in *; set_solver).
    apply Ascii.eqb_neq in Hc. rewrite app_cons. simpl. rewrite Hc.
    rewrite (IH Hname). simpl. by rewrite string_of_list_ascii_snoc.
Qed.

Lemma rstrip_nonspace (c : ascii) (s : string) :
  PyStr.isspace c = false →
  PyStr.rstrip (String c s) = String c (PyStr.rstrip s).
Proof.
  intros Hc. rewrite rstrip_cons, Hc. by destruct (PyStr.rstrip s).
Qed.

Lemma rstrip_app (a b : string) :
  PyStr.rstrip b ≠ "" → PyStr.rstrip (a +:+ b) = a +:+ PyStr.rstrip b.
Proof.
  intros Hb. induction a as [|c a IH]; [done|].
  rewrite !app_cons, rstrip_cons, IH.
  destruct (a +:+ PyStr.rstrip b) as [|d r] eqn:Hab; [|done].
  destruct a; [|done]. by rewrite app_nil_l in Hab.
Qed.

Lemma trimmed_head (s : string) :
  s ≠ "" → trimmed s → ∃ c t, s = String c t ∧ PyStr.isspace c = false.
Proof.
  intros Hne [Hl _]. destruct s as [|c t]; [done|].
  exists c, t. split; [done|]. simpl in Hl.
  destruct (PyStr.isspace c) eqn:Hc; [|done].
  exfalso. assert (String.length (PyStr.lstrip t) ≤ String.length t)%nat.
  { clear. induction t as [|d t IH]; simpl; [done|].
    destruct (PyStr.isspace d); simpl; lia. }
  rewrite Hl in H. simpl in H. lia.
Qed.

Lemma header_step_line (headers : gmap string string) (h : string * string) :
  header_ok h →
  header_step headers (header_line h) = <[h.1 := h.2]> headers
  ∧ header_step headers (PyStr.rstrip (header_line h))
    = <[h.1 := h.2]> headers.
Proof.
  destruct h as [name v]. intros (Hne & Hname & Hcolon & _ & Hv & _).
  simpl in *. unfold header_step, header_line, PyStr.split_once. simpl.
  change (": " +:+ v) with (String ":" (String " " v)).
  split.
  - rewrite split_once_go_field by done. simpl. rewrite app_nil_l.
    rewrite (trimmed_strip name) by done.
    by rewrite (trimmed_strip v Hv : PyStr.strip (String " " v) = v).
  - assert (PyStr.rstrip (String ":" (String " " v))
            = String ":" (PyStr.rstrip (String " " v))) as Hr
      by (by apply rstrip_nonspace).
    rewrite rstrip_app; [|rewrite Hr; discriminate]. rewrite Hr.
    rewrite split_once_go_field by done. simpl. rewrite app_nil_l.
    rewrite (trimmed_strip name) by done.
    unfold PyStr.strip. rewrite lstrip_rstrip, rstrip_idempotent.
    change (PyStr.lstrip (String " " v)) with (PyStr.lstrip v).
    apply trimmed_strip in Hv. unfold PyStr.strip in Hv. by rewrite Hv.
Qed.

Lemma header_line_chars (h : string * string) :
  header_ok h → ascii_of_N 10 ∉ chars (header_line h).
Proof.
  destruct h as [name v]. intros (_ & _ & _ & Hn & _ & Hv). simpl in *.
  unfold header_line. simpl. rewrite !chars_app.
  rewrite !not_elem_of_app. repeat split; [done| |done].
  unfold chars. simpl. rewrite !not_elem_of_cons. repeat split; try done.
  apply not_elem_of_nil.
Qed.

Lemma header_lines_head (hs : list (string * string)) :
  hs ≠ [] → Forall header_ok hs →
  ∃ c t, PyStr.join PyStr.nl (header_line <$> hs) = String c t
         ∧ PyStr.isspace c = false.
Proof.
  intros Hne Hall. destruct Hall as [|[name v] tl (Hn & Htrim & _) _]; [done|].
  simpl in *. destruct (trimmed_head name Hn Htrim) as (c & t & -> & Hc).
  destruct tl as [|h2 tl]; simpl; unfold header_line; simpl;
    rewrite !app_cons; by eexists _, _.
Qed.

Lemma fold_header_lines (hs : list (string * string)) :
  hs ≠ [] → Forall header_ok hs →
  ∀ headers,
    foldl header_step headers
      (PyStr.split_on (ascii_of_N 10)
         (PyStr.rstrip (PyStr.join PyStr.nl (header_line <$> hs))))
    = foldl (λ m h, <[h.1 := h.2]> m) headers hs.
Proof.
  intros Hne Hall. induction Hall as [|h tl Hh Htl IH]; [done|].
  intros headers. destruct tl as [|h2 tl].
  - change (PyStr.join PyStr.nl (header_line <$> [h])) with (header_line h).
    unfold PyStr.split_on.
    assert (ascii_of_N 10 ∉ chars (PyStr.rstrip (header_line h))) as Hnl.
    { intros Hin%rstrip_chars. by apply (header_line_chars h). }
    destruct (split_on_go_field _ _ Hnl []) as [-> _].
    cbn [foldl rev string_of_list_ascii]. rewrite app_nil_l.
    by destruct (header_step_line headers h Hh) as [_ ->].
  - change (PyStr.join PyStr.nl (header_line <$> h :: h2 :: tl))
      with (header_line h +:+ PyStr.nl
            +:+ PyStr.join PyStr.nl (header_line <$> h2 :: tl)).
    destruct (header_lines_head (h2 :: tl)) as (c & t & Heq & Hc);
      [done|done|].
    assert (PyStr.rstrip (PyStr.join PyStr.nl (header_line <$> h2 :: tl))
            ≠ "") as Hrest by (by rewrite Heq, rstrip_nonspace).
    assert (PyStr.rstrip
              (PyStr.nl +:+ PyStr.join PyStr.nl (header_line <$> h2 :: tl))
            = String (ascii_of_N 10)
                (PyStr.rstrip
                   (PyStr.join PyStr.nl (header_line <$> h2 :: tl))))
      as Hnl.
    { change (PyStr.nl +:+ ?x) with (String (ascii_of_N 10) x).
      rewrite rstrip_cons.
      by destruct (PyStr.rstrip _). }
    rewrite rstrip_app by (by rewrite Hnl). rewrite Hnl.
    unfold PyStr.split_on.
    destruct (split_on_go_field _ _ (header_line_chars h Hh) []) as [_ ->].
    simpl foldl. rewrite app_nil_l.
    destruct (header_step_line headers h Hh) as [-> _].
    by apply IH.
Qed.

(** X13. Headers written one per line as name, colon, space, value are
    read back as written: [parse_headers] maps each name to its value,
    the last line winning when a name is repeated. The names are not
    empty, have no colon, and neither names nor values have white space
    at the ends or a newline inside; the value may hold colons. *)
Theorem parse_headers_reads_lines (hs : list (string * string)) :
  hs ≠ [] →
  Forall header_ok hs →
  parse_headers (PyStr.join PyStr.nl (header_line <$> hs))
  = foldl (λ m h, <[h.1 := h.2]> m) ∅ hs.
Proof.
  intros Hne Hall. rewrite parse_headers_fold. unfold PyStr.strip.
  destruct (header_lines_head hs Hne Hall) as (c & t & Heq & Hc).
  assert (PyStr.lstrip (PyStr.join PyStr.nl (header_line <$> hs))
          = PyStr.join PyStr.nl (header_line <$> hs)) as ->.
  { rewrite Heq. simpl. by rewrite Hc. }
  by apply fold_header_lines.
Qed.

(** ** What the window shows *)

Lemma str_contains_unfold (needle hay : string) :
  str_contains needle hay
  = String.prefix needle hay
    || match hay with
       | EmptyString => false
       | String _ rest => str_contains needle rest
       end.
Proof. by destruct hay. Qed.

Lemma contains_prefix (needle rest : string) :
  str_contains needle (needle +:+ rest) = true.
Proof.
  rewrite str_contains_unfold.
  assert (String.prefix needle (needle +:+ rest) = true) as ->
    by (apply prefix_app; by exists rest).
  done.
Qed.

(** X14. The colour of a status line follows its text alone, the same in
    the dark and in the light theme: both error reports of a crawl are
    red; the report of a scraped URL is green, unless the URL itself
    holds the word Error, in which case the success is shown in red; and
    the report of a saved file is green on the same condition on the file
    name. *)
Theorem status_colours (dark_mode : bool) :
  (∀ u msg, status_foreground dark_mode
              ("Error scraping " +:+ u +:+ ": " +:+ msg) = "red")
  ∧ (∀ u msg, status_foreground dark_mode
                ("Error crawling links from " +:+ u +:+ ": " +:+ msg) = "red")
  ∧ (∀ u, status_foreground dark_mode ("Scraped " +:+ u)
          = if str_contains "Error" u then "red" else "green")
  ∧ (∀ f, status_foreground dark_mode ("Saved to " +:+ f)
          = if str_contains "Error" f then "red" else "green")
  ∧ (∀ status, status_foreground dark_mode status
               = status_foreground (negb dark_mode) status).
Proof.
  split; [|split; [|split; [|split]]].
  - intros u msg. unfold status_foreground.
    change ("Error scraping " +:+ u +:+ ": " +:+ msg)
      with ("Error" +:+ " scraping " +:+ u +:+ ": " +:+ msg).
    by rewrite contains_prefix.
  - intros u msg. unfold status_foreground.
    change ("Error crawling links from " +:+ u +:+ ": " +:+ msg)
      with ("Error" +:+ " crawling links from " +:+ u +:+ ": " +:+ msg).
    by rewrite contains_prefix.
  - intros u. unfold status_foreground.
    change (str_contains "Error" ("Scraped " +:+ u))
      with (str_contains "Error" u).
    change ("Scraped " +:+ u) with ("Scraped" +:+ " " +:+ u).
    rewrite (contains_prefix "Scraped"). by destruct (str_contains "Error" u).
  - intros f. unfold status_foreground.
    change (str_contains "Error" ("Saved to " +:+ f))
      with (str_contains "Error" f).
    change ("Saved to " +:+ f) with ("Saved" +:+ " to " +:+ f).
    rewrite (contains_prefix "Saved"), orb_true_r.
    by destruct (str_contains "Error" f).
  - intros status. unfold status_foreground. by destruct dark_mode.
Qed.

(** X15. The two save buttons differ in one case only. [save_to_json]
    never raises and reports at most one status. [save_to_csv] raises
    exactly when a file was chosen and there are no results: it then
    fails on [self.status], which does not exist, where [save_to_json]
    reports [No data to save]. In every other case the two do the same
    up to the word CSV or JSON in the failure report, and with no
    results neither depends on what writing the file would have done. *)
Theorem save_without_results
    (write : string → list (gmap string string) → option exn)
    (filename : string) (results : list ScrapedData) :
  (∃ msgs, save_to_json filename results write = inr msgs
           ∧ (length msgs ≤ 1)%nat)
  ∧ ((∃ e, save_to_csv filename results write = inl e)
     ↔ filename ≠ "" ∧ results = [])
  ∧ (filename ≠ "" → results = [] →
     save_to_json filename results write = inr ["No data to save"])
  ∧ (¬ (filename ≠ "" ∧ results = []) →
     match save_to_csv filename results write,
           save_to_json filename results write with
     | inr [csv], inr [json] =>
         (csv = json ∧ write filename (to_dict <$> results) = None)
         ∨ ∃ e, write filename (to_dict <$> results) = Some e
                ∧ csv = "Failed to save CSV: " +:+ exn_str e
                ∧ json = "Failed to save JSON: " +:+ exn_str e
     | inr [], inr [] => filename = ""
     | _, _ => False
     end)
  ∧ (results = [] →
     ∀ write', save_to_json filename results write
               = save_to_json filename results write'
               ∧ save_to_csv filename results write
                 = save_to_csv filename results write').
Proof.
  unfold save_to_csv, save_to_json.
  destruct filename as [|c filename]; simpl.
  { split; [exists []; split; [done|simpl; lia]|].
    split; [split; [by intros [e ?]|by intros [? _]]|].
    split; [by intros ?|]. split; [done|]. done. }
  destruct results as [|r results]; simpl.
  { split; [eexists; split; [done|simpl; lia]|].
    split; [split; [done|by eexists]|]. split; [done|].
    split; [intros H; by destruct H|]. done. }
  split.
  { destruct (write _ _); eexists; (split; [done|simpl; lia]). }
  split.
  { split; [intros [e He]; by destruct (write _ _)|by intros [_ ?]]. }
  split; [done|].
  split; [|done].
  intros _. destruct (write _ _) as [e|] eqn:Hw.
  - right. by exists e.
  - by left.
Qed.

(** ** An empty URL field *)

Lemma split_on_go_nonempty (sep : ascii) (s : string) :
  ∀ cur, PyStr.split_on_go sep cur s ≠ [].
Proof.
  induction s as [|c s IH]; intros cur; simpl; [done|].
  destruct (Ascii.eqb c sep); [done|apply IH].
Qed.

(** Joining undoes splitting. *)
Lemma join_split_on_go (sep : ascii) (s : string) :
  ∀ cur,
    PyStr.join (String sep "") (PyStr.split_on_go sep cur s)
    = string_of_list_ascii (rev cur) +:+ s.
Proof.
  induction s as [|c s IH]; intros cur; simpl.
  - by rewrite app_nil_r.
  - destruct (Ascii.eqb_spec c sep) as [->|Hc].
    + pose proof (split_on_go_nonempty sep s []) as Hne.
      specialize (IH []). simpl in IH. rewrite app_nil_l in IH.
      destruct (PyStr.split_on_go sep [] s) as [|y l] eqn:Hs; [done|].
      change (PyStr.join (String sep "") (?x :: y :: l))
        with (x +:+ String sep "" +:+ PyStr.join (String sep "") (y :: l)).
      by rewrite IH, app_cons, app_nil_l.
    + rewrite IH. simpl. apply string_of_list_ascii_snoc.
Qed.

Lemma join_chars (P : ascii → Prop) (sep : ascii) (l : list string) :
  P sep → Forall (λ x, Forall P (chars x)) l →
  Forall P (chars (PyStr.join (String sep "") l)).
Proof.
  intros Hsep. induction 1 as [|x l Hx _ IH]; [constructor|].
  destruct l as [|y l]; [done|].
  change (PyStr.join (String sep "") (x :: y :: l))
    with (x +:+ String sep "" +:+ PyStr.join (String sep "") (y :: l)).
  rewrite !chars_app. apply Forall_app. split; [done|].
  apply Forall_app. split; [|done]. by repeat constructor.
Qed.

Lemma chars_of_join (sep : ascii) (l : list string) (x : string) :
  x ∈ l → chars x ⊆ chars (PyStr.join (String sep "") l).
Proof.
  induction l as [|y l IH]; [by intros ?%elem_of_nil|].
  intros Hin c Hc. destruct l as [|z l].
  - apply list_elem_of_singleton in Hin as ->. done.
  - change (PyStr.join (String sep "") (y :: z :: l))
      with (y +:+ String sep "" +:+ PyStr.join (String sep "") (z :: l)).
    rewrite !chars_app, !elem_of_app.
    apply elem_of_cons in Hin as [->|Hin]; [by left|].
    right. right. by apply IH.
Qed.

Lemma lstrip_all_space (s : string) : all_space (PyStr.lstrip s) ↔ all_space s.
Proof.
  unfold all_space, chars. induction s as [|c s IH]; [done|]. simpl.
  destruct (PyStr.isspace c) eqn:Hc; [|done].
  rewrite IH, Forall_cons. naive_solver.
Qed.

Lemma rstrip_empty_iff (s : string) : PyStr.rstrip s = "" ↔ all_space s.
Proof.
  unfold all_space, chars. induction s as [|c s IH]; [done|].
  rewrite rstrip_cons. simpl. rewrite Forall_cons, <- IH.
  destruct (PyStr.rstrip s) as [|d r].
  - destruct (PyStr.isspace c); naive_solver.
  - naive_solver.
Qed.

Lemma strip_empty_iff (s : string) : PyStr.strip s = "" ↔ all_space s.
Proof.
  unfold PyStr.strip. by rewrite rstrip_empty_iff, lstrip_all_space.
Qed.

Lemma seed_urls_nil_iff (url_input : string) :
  seed_urls url_input = []
  ↔ Forall (λ c, PyStr.isspace c = true ∨ c = ","%char) (chars url_input).
Proof.
  unfold seed_urls.
  pose proof (join_split_on_go "," url_input []) as Hjoin.
  simpl in Hjoin. rewrite app_nil_l in Hjoin.
  pose proof (split_on_go_fields "," url_input [] (not_elem_of_nil _)) as Hfree.
  fold (PyStr.split_on "," url_input) in Hjoin, Hfree.
  split.
  - intros Hnil%fmap_nil_inv. rewrite <- Hjoin.
    apply (join_chars _ ","); [by right|].
    apply Forall_forall. intros x Hx.
    assert (PyStr.strip x = "") as Hblank.
    { destruct (PyStr.strip x) as [|c t] eqn:Hstrip; [done|].
      assert (x ∈ @nil string) as Hin
        by (rewrite <- Hnil; apply list_elem_of_filter; by rewrite Hstrip).
      by apply elem_of_nil in Hin. }
    apply strip_empty_iff in Hblank.
    eapply Forall_impl; [exact Hblank|]. by left.
  - intros Hall.
    destruct (filter _ (PyStr.split_on "," url_input)) as [|x l] eqn:Hf;
      [done|].
    exfalso. assert (x ∈ x :: l) as Hin by left.
    rewrite <- Hf in Hin. apply list_elem_of_filter in Hin as [Htruthy Hx].
    assert (all_space x) as Hspace.
    { apply Forall_forall. intros c Hc.
      rewrite Forall_forall in Hall. rewrite Forall_forall in Hfree.
      destruct (Hall c) as [Hs| ->]; [|done|].
      - rewrite <- Hjoin. by eapply chars_of_join.
      - by destruct (Hfree x Hx). }
    apply strip_empty_iff in Hspace. by rewrite Hspace in Htruthy.
Qed.

(** X16. [scrape] finds no seed exactly when the URL field holds nothing
    but white space and commas. In that case it reports [No valid URLs
    provided] and does nothing else: the regex is not compiled, so a
    pattern that does not parse goes unnoticed, and no crawl is started. *)
Theorem blank_url_field chrome http select urljoin (fuel : nat)
    (ui : gui_inputs) (clock0 : nat) :
  (seed_urls (url_input ui) = []
   ↔ Forall (λ c, PyStr.isspace c = true ∨ c = ","%char)
            (chars (url_input ui)))
  ∧ (scrape chrome http select urljoin fuel ui clock0
     = NoValidUrls [EvStatus "No valid URLs provided"]
     ↔ Forall (λ c, PyStr.isspace c = true ∨ c = ","%char)
              (chars (url_input ui))).
Proof.
  split; [apply seed_urls_nil_iff|].
  rewrite <- seed_urls_nil_iff. unfold scrape.
  destruct (seed_urls (url_input ui)) as [|u us]; [done|].
  split; [|done]. by destruct (config_of ui).
Qed.

(** ** The progress bar *)

Section Progress.

Variable chrome : nat → list string → string → render_outcome.
Variable http : nat → http_request → http_outcome.
Variable select : soup → string → exn + list Tag.
Variable urljoin : string → string → exn + string.

Local Abbreviation step := (worker_step chrome http select urljoin).
Local Abbreviation reach := (reachable chrome http select urljoin).

(** The progress after an iteration: as before when the entry was
    dropped, the share of results in [total_urls] otherwise. *)
Lemma step_progress cfg st st' :
  step cfg st = Continue st' →
  (progress st' = progress st ∧ scraped_results st' = scraped_results st)
  ∨ progress st'
    = Z.of_nat (length (scraped_results st')) # Z.to_pos (total_urls st').
Proof.
  unfold worker_step.
  destruct (queue st) as [|[current_url current_depth] rest]; [done|].
  destruct (_ || _); [intros [= <-]; by left|].
  destruct (scrape_url _ _ _ _ _) as [[[result evs] clock']|]; [|done].
  destruct (total_urls _ =? 0); [done|].
  intros [= <-]. right.
  match goal with
  | |- context [discover_links http select urljoin ?c ?u ?d ?s] =>
      destruct (discover_links_keeps http select urljoin c u d s)
        as (_ & _ & _ & Hsc & Hto & Hpr & _)
  end.
  rewrite Hsc, Hto, Hpr.
  by destruct (negb _), result.
Qed.

Lemma crawl_counts cfg st :
  reach cfg st →
  total_urls st = Z.min (Z.of_nat (length (urls cfg))) 100
  ∧ (length (scraped_results st) ≤ length (dispatched st))%nat
  ∧ (length (dispatched st) + length (queue st) ≤ length (urls cfg))%nat.
Proof.
  induction 1 as [clock0 trace0|st st' _ (Htotal & Hkept & Hlen) Hstep].
  - unfold initial_state. simpl. rewrite length_fmap. repeat split; lia.
  - apply step_continue in Hstep
      as (u & d & rest & Hq & Hq' &
          [[-> _]|(_ & _ & _ & Hdis & Hto & result & evs & clock' & _
                   & _ & Hsc & _)]).
    + simpl. rewrite Hq in Hlen. simpl in Hlen. repeat split; [done|done|lia].
    + rewrite Hto, Hdis, Hsc, Hq', length_app. rewrite Hq in Hlen.
      simpl in *. split; [done|]. split; [|lia].
      destruct result as [r|]; simpl; [|lia].
      case_bool_decide; rewrite ?length_app; simpl; lia.
Qed.

(** X17. With at most 100 seeds the progress shown during a crawl is a
    share: it starts at 0 and at every moment lies between 0 and 1, the
    maximum of the progress bar. *)
Theorem progress_within_bar cfg st :
  (length (urls cfg) ≤ 100)%nat →
  reach cfg st →
  (0 <= progress st)%Q ∧ (progress st <= 1)%Q.
Proof.
  intros Hseeds.
  induction 1 as [clock0 trace0|st st' Hreach IH Hstep]; [done|].
  assert (reach cfg st') as Hreach' by (by eapply reach_step).
  apply step_progress in Hstep as [[-> _] | ->]; [done|].
  destruct (crawl_counts cfg st' Hreach') as (Htotal & Hkept & Hlen).
  unfold Qle. simpl. rewrite Htotal.
  destruct (length (urls cfg)) as [|n] eqn:Hn; [|].
  - assert (length (scraped_results st') = 0)%nat as -> by lia. done.
  - rewrite Z2Pos.id by lia. lia.
Qed.

End Progress.

(** ** The regex field left empty *)

Section EmptyRegex.

Variable chrome : nat → list string → string → render_outcome.
Variable http : nat → http_request → http_outcome.
Variable select : soup → string → exn + list Tag.
Variable urljoin : string → string → exn + string.

Local Abbreviation loop := (scrape_loop chrome http select).
Local Abbreviation reach := (reachable chrome http select urljoin).

(** A record that [scrape_url] returns was extracted from some page. *)
Lemma scrape_loop_extracted a u :
  ∀ fuel attempts clock data evs clock',
    loop fuel a u attempts clock = Some (Some data, evs, clock') →
    ∃ html, extract select a u html = inr data.
Proof.
  assert (∀ clock data evs0,
            attempt chrome http select a u clock = (inr data, evs0) →
            ∃ html, extract select a u html = inr data) as Hone.
  { intros clock data evs0. unfold attempt.
    destruct (fetch_html chrome http a u clock) as [[e|html] evs1]; [done|].
    destruct (extract select a u html) as [e|data'] eqn:Hex; [done|].
    intros [= <- _]. by exists html. }
  induction fuel as [|fuel IH]; intros attempts clock data evs clock'; simpl.
  - by destruct (attempts <=? retry_attempts a).
  - destruct (attempts <=? retry_attempts a); [|done].
    destruct (attempt chrome http select a u clock) as [[e|data'] evs0]
      eqn:Hatt.
    + destruct (attempts + 1 >? retry_attempts a); [done|].
      destruct (loop fuel a u (attempts + 1) (S clock))
        as [[[r1 evs1] clock1]|] eqn:Hloop; [|done].
      intros [= -> _ _]. by eapply IH.
    + intros [= <- _ _]. by eapply Hone.
Qed.

Lemma produced_extracted cfg st :
  reach cfg st →
  Forall (λ r, ∃ current_url u html,
               extract select (args_for cfg current_url) u html = inr r)
         (produced st).
Proof.
  induction 1 as [clock0 trace0|st st' Hreach IH Hstep]; [by constructor|].
  apply step_continue in Hstep
    as (u & d & rest & _ & _ &
        [[-> _]|(_ & _ & _ & _ & _ & result & evs & clock' & Hscrape
                 & _ & _ & ->)]); [done|].
  destruct result as [data|]; simpl; [|done].
  apply Forall_app. split; [done|].
  constructor; [|done].
  unfold scrape_url in Hscrape.
  apply scrape_loop_extracted in Hscrape as [html Hex].
  by exists u, (normalize_url (arg_url (args_for cfg u))), html.
Qed.

(** C10. With the regex field left empty [re.compile] still gives a
    pattern object, and [scrape] passes the object itself to
    [scrape_url], where [if regex] holds for every pattern object. So
    the regex step runs: the empty pattern matches the empty string once
    at each position, one more than the content has characters, the
    newline-join of these replaces the content, and every record that is
    extracted, and so every result of the crawl, holds newlines only: as
    many as the selected text had characters, and none of the text. *)
Theorem empty_regex_yields_newlines (ui : gui_inputs) :
  regex_input ui = "" →
  ∃ cfg,
    config_of ui = Re.Parsed cfg
    ∧ cfg_regex cfg = empty_pattern
    ∧ cfg_selector cfg = selector_input ui
    ∧ (∀ current_url,
         regex (args_for cfg current_url) = Some empty_pattern)
    ∧ (∀ content,
         Re.findall empty_pattern content
         = replicate (S (String.length content)) (Re.MStr ""))
    ∧ (∀ normalized_url content,
         regex_step (Some empty_pattern) normalized_url content
         = inr (PyStr.newlines (String.length content)))
    ∧ (∀ current_url normalized_url html elements,
         PyStr.lower (content_type_var ui) = "text" →
         attribute_input ui = "" →
         select {| features := "html.parser"; markup := html |}
           (selector_input ui)
         = inr elements →
         PyStr.truthy (text_content elements) = true →
         extract select (args_for cfg current_url) normalized_url html
         = inr {| url := normalized_url;
                  content :=
                    PyStr.newlines (String.length (text_content elements));
                  attributes := "" |})
    ∧ (∀ current_url normalized_url html data,
         extract select (args_for cfg current_url) normalized_url html
         = inr data →
         ∃ n, content data = PyStr.newlines (S n))
    ∧ (∀ fuel clock0,
         seed_urls (url_input ui) ≠ [] →
         scrape chrome http select urljoin fuel ui clock0
         = Started (scrape_worker chrome http select urljoin fuel cfg clock0
                      [EvStatus "Scraping..."]))
    ∧ (∀ fuel clock0 results st,
         scrape chrome http select urljoin fuel ui clock0
         = Started (Completed results st) →
         Forall (λ r, ∃ n, content r = PyStr.newlines (S n)) results).
Proof.
  intros Hfield. unfold scrape, config_of. rewrite Hfield.
  change (Re.compile "") with (Re.Parsed empty_pattern).
  cbn [Re.bind]. eexists. split; [reflexivity|].
  cbn [cfg_regex cfg_selector]. split; [done|]. split; [done|].
  split; [done|]. split; [apply findall_empty_pattern|].
  split; [apply regex_step_empty_pattern|].
  assert (∀ current_url normalized_url html data,
            extract select
              (args_for
                 {| urls := seed_urls (url_input ui);
                    cfg_selector := selector_input ui;
                    cfg_attribute := attribute_input ui;
                    cfg_regex := empty_pattern;
                    next_page_selector := next_page_selector_input ui;
                    cfg_content_type := content_type_var ui;
                    depth := crawl_depth ui;
                    headers := parse_headers (custom_headers ui);
                    cfg_timeout := timeout_secs ui;
                    cfg_proxy := proxy_input ui;
                    scrape_delay := scrape_delay_input ui;
                    cfg_use_headless := use_headless_input ui;
                    cfg_retry_attempts := retry_attempts_input ui;
                    max_concurrent := max_concurrent_input ui |}
                 current_url) normalized_url html = inr data →
            ∃ n, content data = PyStr.newlines (S n)) as Hall.
  { intros current_url normalized_url html data.
    by apply extract_empty_pattern. }
  split; [|split; [exact Hall|split]].
  - intros current_url normalized_url html elements Hkind Hattr Hsel Htruthy.
    by apply extract_text_empty_pattern.
  - intros fuel clock0 Hseeds.
    by destruct (seed_urls (url_input ui)).
  - intros fuel clock0 results st.
    destruct (seed_urls (url_input ui)) as [|seed seeds] eqn:Hseeds; [done|].
    intros [= Hrun]. revert Hrun. unfold scrape_worker.
    destruct (worker_loop _ _ _ _ _ _ _) as [st1|e st1|] eqn:Hrun; [|done..].
    intros [= <- <-].
    apply run_reachable in Hrun as [Hreach _]; [|constructor].
    pose proof (reachable_dedup _ _ _ _ _ _ Hreach) as Hinv.
    pose proof (produced_extracted _ _ Hreach) as Hmade.
    rewrite Forall_forall in Hmade. apply Forall_forall. intros r Hr.
    apply (kept_in_made _ _ _ _ Hinv) in Hr.
    destruct (Hmade r Hr) as (current_url & u & html & Hex).
    by eapply Hall.
Qed.

End EmptyRegex.

(** * The further properties on the small world *)

Lemma scrape_url_negative_retries_witness :
  retry_attempts Flaky.args_none < 0
  ∧ scrape_url Toy.chrome Toy.http Toy.select Flaky.args_none 0
    = Some (None, [], 0%nat).
Proof.
  split; [simpl; lia|].
  apply scrape_url_negative_retries. simpl. lia.
Defined.

(** The first answer is a timeout, the second the page. *)
Lemma scrape_url_first_success_witness :
  ∃ evs,
    scrape_url Toy.chrome Flaky.http Toy.select Flaky.args 0
    = Some (Some {| url := "https://a.com"; content := "Title";
                    attributes := "" |}, evs, 2%nat)
    ∧ count is_fetch evs = 2%nat
    ∧ List.filter is_sleep evs = [EvSleep 1]
    ∧ List.filter is_status evs = [EvStatus "Scraped https://a.com"].
Proof.
  eapply (scrape_url_first_success Toy.chrome Flaky.http Toy.select
            Flaky.args 1 0).
  - simpl. lia.
  - intros i Hi. assert (i = 0%nat) as -> by lia.
    eexists _, _. vm_compute. reflexivity.
  - vm_compute. reflexivity.
Defined.

Lemma unknown_kind_costs_fetches_witness :
  ∃ evs,
    scrape_url Toy.chrome Toy.http Toy.select Flaky.args_video 0
    = Some (None, evs, 3%nat)
    ∧ Z.of_nat (count is_fetch evs) = 3.
Proof.
  destruct (unknown_kind_costs_fetches Toy.chrome Toy.http Toy.select
              Flaky.args_video 0) as [_ H].
  - vm_compute. discriminate.
  - vm_compute. discriminate.
  - vm_compute. discriminate.
  - simpl. lia.
  - exact H.
Defined.

Lemma attribute_only_for_text_witness :
  scrape_url Toy.chrome Toy.http Toy.select
    (with_attribute "title" Flaky.args_links) 0
  = scrape_url Toy.chrome Toy.http Toy.select Flaky.args_links 0.
Proof.
  destruct (attribute_only_for_text Toy.chrome Toy.http Toy.select
              Flaky.args_links "title" 0) as [H _].
  - vm_compute. discriminate.
  - exact H.
Defined.

(** Both seeds of [Sample.cfg] name the same page: it is scraped twice. *)
Lemma seeds_dispatched_in_order_witness :
  Sample.outcome = Completed Sample.results Sample.final
  ∧ dispatched Sample.final = [("https://a.com", 0); ("https://a.com", 0)].
Proof.
  split; [vm_compute; reflexivity|].
  apply (seeds_dispatched_in_order Toy.chrome Toy.http Toy.select Toy.urljoin
           2 Sample.cfg 0 [] Sample.results Sample.final).
  - simpl. lia.
  - vm_compute. lia.
  - vm_compute. reflexivity.
Defined.

Lemma final_status_tells_success_witness :
  Toy.outcome = Completed Toy.results Toy.final
  ∧ last (trace Toy.final) = Some (EvStatus "Scraping completed").
Proof.
  split; [vm_compute; reflexivity|].
  destruct (final_status_tells_success Toy.chrome Toy.http Toy.select
              Toy.urljoin 2 Toy.cfg 0 [] Toy.results Toy.final) as [_ H].
  - vm_compute. reflexivity.
  - assert (produced Toy.final
            = [ {| url := "https://a.com"; content := "Title";
                   attributes := "" |};
                {| url := "https://b.com"; content := "Title";
                   attributes := "" |} ]) as Hp by (vm_compute; reflexivity).
    rewrite Hp in H. exact H.
Defined.

Lemma results_are_seed_pages_witness :
  Toy.results
  = [ {| url := "https://a.com"; content := "Title"; attributes := "" |} ]
  ∧ Forall (λ r, r ∈ produced Toy.final
                 ∧ (∃ seed, seed ∈ urls Toy.cfg ∧ url r = normalize_url seed)
                 ∧ content r ≠ "")
           Toy.results.
Proof.
  split; [vm_compute; reflexivity|].
  apply (results_are_seed_pages Toy.chrome Toy.http Toy.select Toy.urljoin
           2 Toy.cfg 0 []).
  vm_compute. reflexivity.
Defined.

Lemma text_lines_are_elements_witness :
  PyStr.split_on (ascii_of_N 10)
    (text_content [Toy.tag "Hello  world" ∅; Toy.tag "Bye" ∅])
  = ["Hello world"; "Bye"].
Proof.
  etrans; [by apply text_lines_are_elements|].
  vm_compute. reflexivity.
Defined.

Lemma load_then_seed_witness :
  let '(field, statuses) :=
    load_urls_from_file "urls.txt" (inr Sample.lines) "" in
  seed_urls field = ["a.com"; "b.com/x"]
  ∧ statuses = ["Loaded 2 URLS from file"].
Proof.
  assert (Forall (λ line, ","%char ∉ chars line) Sample.lines) as Hfree.
  { repeat constructor; apply (bool_decide_unpack _); vm_compute; exact I. }
  exact (load_then_seed "urls.txt" Sample.lines "" ltac:(discriminate) Hfree).
Defined.

Lemma parse_headers_reads_lines_witness :
  parse_headers (PyStr.join PyStr.nl (header_line <$> Sample.headers))
  = <["Accept" := "*/*"]>
      (<["X-Time" := "12:30"]> (<["Accept" := "text/html"]> ∅)).
Proof.
  apply (parse_headers_reads_lines Sample.headers); [discriminate|].
  repeat constructor; try discriminate;
    apply (bool_decide_unpack _); vm_compute; exact I.
Defined.

(** After the first of two seeds the bar is at one half. *)
Lemma progress_within_bar_witness :
  (length (urls Toy.cfg) ≤ 100)%nat
  ∧ progress Toy.st1 = 1 # 2
  ∧ (0 <= progress Toy.st1)%Q ∧ (progress Toy.st1 <= 1)%Q.
Proof.
  split; [simpl; lia|]. split; [vm_compute; reflexivity|].
  apply (progress_within_bar Toy.chrome Toy.http Toy.select Toy.urljoin
           Toy.cfg Toy.st1); [simpl; lia|].
  exact toy_st1_reachable.
Defined.

(** [Toy.ui] leaves the regex field empty: the heading [Title] comes back
    as five newlines. *)
Lemma empty_regex_yields_newlines_witness :
  regex_input Toy.ui = ""
  ∧ scrape Toy.chrome Toy.http Toy.select Toy.urljoin 1 Toy.ui 0
    = Started (Completed Toy.scraped Toy.scraped_final)
  ∧ Toy.scraped
    = [ {| url := "https://a.com"; content := PyStr.newlines 5;
           attributes := "" |} ]
  ∧ Forall (λ r, ∃ n, content r = PyStr.newlines (S n)) Toy.scraped.
Proof.
  assert (scrape Toy.chrome Toy.http Toy.select Toy.urljoin 1 Toy.ui 0
          = Started (Completed Toy.scraped Toy.scraped_final)) as Hrun
    by (vm_compute; reflexivity).
  split; [reflexivity|]. split; [exact Hrun|].
  split; [vm_compute; reflexivity|].
  destruct (empty_regex_yields_newlines Toy.chrome Toy.http Toy.select
              Toy.urljoin Toy.ui eq_refl)
    as (cfg & _ & _ & _ & _ & _ & _ & _ & _ & _ & Hall).
  exact (Hall 1%nat 0%nat Toy.scraped Toy.scraped_final Hrun).
Defined.
